(** * A shallow embedding of [app.py], the Stable Diffusion image generator

    The Python functions of [app.py] are embedded as Rocq functions over an
    explicit [world]: the Streamlit session state and secrets, the file
    system, the SQLite table [prompts], the wall clock, the replies of the
    inference endpoint still to come, and the trace of observable effects
    ([st.error], [time.sleep], HTTP posts, file and SQL writes).  Logging
    calls and [st.spinner] blocks do not influence any value or any of the
    modelled effects and are left out. *)

From Stdlib Require Import ZArith QArith Qcanon List Lia Bool Ascii String.
From Stdlib.Init Require Import Byte.
From stdpp Require Import base numbers list strings gmap pretty.

Open Scope Z_scope.

(** ** Python values *)

(** A Python [str] is a sequence of Unicode code points. *)
Abbreviation pystr := (list N).

(** A Python string literal. *)
Definition py (s : string) : pystr := map N_of_ascii (list_ascii_of_string s).

(** [str.isspace] on one code point, CPython's [_PyUnicode_IsWhitespace]. *)
Definition isspace (c : N) : bool :=
  ((9 <=? c) && (c <=? 13) || (28 <=? c) && (c <=? 32)
   || (c =? 133) || (c =? 160) || (c =? 5760)
   || (8192 <=? c) && (c <=? 8202)
   || (c =? 8232) || (c =? 8233) || (c =? 8239) || (c =? 8287)
   || (c =? 12288))%N.

(** The characters [' '] and ['/']. *)
Definition SP : N := 32%N.
Definition SLASH : N := 47%N.

(** Truth value of a [str]: non-empty. *)
Definition truthy (s : pystr) : bool :=
  match s with [] => false | _ => true end.

Fixpoint lstrip (s : pystr) : pystr :=
  match s with
  | [] => []
  | c :: s' => if isspace c then lstrip s' else s
  end.

Definition rstrip (s : pystr) : pystr := rev (lstrip (rev s)).

(** [s.strip()] *)
Definition strip (s : pystr) : pystr := rstrip (lstrip s).

(** [s.split()] without arguments: the maximal runs of non-whitespace, in
    order.  [w] is the word being scanned. *)
Fixpoint split_go (w s : pystr) : list pystr :=
  match s with
  | [] => match w with [] => [] | _ => [w] end
  | c :: s' =>
      if isspace c
      then match w with [] => split_go [] s' | _ => w :: split_go [] s' end
      else split_go (w ++ [c]) s'
  end.

Definition split (s : pystr) : list pystr := split_go [] s.

(** [s.split(sep)] for a one-character separator: empty pieces are kept. *)
Fixpoint split_sep (sep : N) (s : pystr) : list pystr :=
  match s with
  | [] => [[]]
  | c :: s' =>
      if (c =? sep)%N then [] :: split_sep sep s'
      else match split_sep sep s' with
           | [] => [[c]]
           | w :: ws => (c :: w) :: ws
           end
  end.

(** [sep.join(words)] *)
Fixpoint join (sep : pystr) (words : list pystr) : pystr :=
  match words with
  | [] => []
  | [w] => w
  | w :: ws => w ++ sep ++ join sep ws
  end.

(** [s.startswith(prefix)] *)
Fixpoint startswith (s prefix : pystr) : bool :=
  match prefix, s with
  | [], _ => true
  | p :: prefix', c :: s' => (c =? p)%N && startswith s' prefix'
  | _ :: _, [] => false
  end.

(** [s.endswith(suffix)] *)
Definition endswith (s suffix : pystr) : bool := startswith (rev s) (rev suffix).

(** [a == b] on strings. *)
Definition str_eqb (a b : pystr) : bool := bool_decide (a = b).

(** [str(n)] for an integer. *)
Definition str_of_Z (n : Z) : pystr := py (pretty n).

(** ** [os.path] on POSIX *)

Definition isabs (path : pystr) : bool := startswith path [SLASH].

(** [os.path.join(a, b)] *)
Definition path_join (a b : pystr) : pystr :=
  if startswith b [SLASH] then b
  else if negb (truthy a) || endswith a [SLASH] then a ++ b
  else a ++ [SLASH] ++ b.

(** One round of the loop of [normpath] over the components. *)
Definition normpath_step (initial_slashes : nat) (new_comps : list pystr)
    (comp : pystr) : list pystr :=
  if str_eqb comp [] || str_eqb comp (py ".") then new_comps
  else if negb (str_eqb comp (py ".."))
          || (Nat.eqb initial_slashes 0 && negb (bool_decide (new_comps <> [])))
          || (bool_decide (new_comps <> []) && str_eqb (List.last new_comps []) (py ".."))
  then new_comps ++ [comp]
  else if bool_decide (new_comps <> []) then removelast new_comps
  else new_comps.

(** [os.path.normpath(path)] *)
Definition normpath (path : pystr) : pystr :=
  if negb (truthy path) then py "."
  else
    let initial_slashes :=
      if startswith path [SLASH] then
        if startswith path [SLASH; SLASH] && negb (startswith path [SLASH; SLASH; SLASH])
        then 2%nat else 1%nat
      else 0%nat in
    let comps := split_sep SLASH path in
    let new_comps := fold_left (normpath_step initial_slashes) comps [] in
    let path := join [SLASH] new_comps in
    let path := repeat SLASH initial_slashes ++ path in
    if truthy path then path else py ".".

(** [os.path.abspath(path)] in working directory [cwd]. *)
Definition abspath (cwd path : pystr) : pystr :=
  normpath (if isabs path then path else path_join cwd path).

(** The directory an absolute, normalized path lies in. *)
Definition dirname (path : pystr) : pystr :=
  let head := join [SLASH] (removelast (split_sep SLASH path)) in
  if truthy head then head else [SLASH].

(** ** The data model *)

(** [st.session_state]: each key the core reads is present or absent. *)
Record session_state := {
  demo_mode : option bool;
  last_request_time : option Z;
  request_count : option Z
}.

(** A PIL image: mode, [size = (width, height)] and its raster. *)
Inductive raster :=
| Solid (r g b : Z)
| Decoded (data : list Byte.byte).

Record image := { mode : pystr; size : Z * Z; pixels : raster }.

(** [Image.new(mode, size, color)] *)
Definition Image_new (mode : pystr) (size : Z * Z) (color : Z * Z * Z) : image :=
  let '(r, g, b) := color in
  {| mode := mode; size := size; pixels := Solid r g b |}.

(** A row of the table [prompts]. *)
Record row := {
  id : Z;
  prompt : pystr;
  expected_style : pystr;
  filename : pystr;
  created_at : Z;
  score : option Z;
  feedback : option pystr
}.

(** The table and the AUTOINCREMENT counter SQLite keeps for it. *)
Record database := { prompts : list row; sqlite_sequence : Z }.

(** What [response.json()] yields: it raises on a body that is not JSON;
    [.get] is defined on objects only.  Member values are kept as the text an
    f-string renders for them. *)
Inductive json_body :=
| NotJson
| JsonNotObject
| JsonObject (members : list (pystr * pystr)).

Record response := {
  status_code : Z;
  content : list Byte.byte;
  json : json_body
}.

Inductive node :=
| File (data : list Byte.byte)
| Dir.

Inductive event :=
| EvError (msg : pystr)
| EvSleep (secs : Z)
| EvPost (url : pystr) (authorization : pystr) (inputs : pystr)
| EvRead (path : pystr)
| EvWrite (path : pystr)
| EvRemove (path : pystr)
| EvInsert (r : row)
| EvDelete (rowid : Z)
| EvUpdate (rowid : Z).

Inductive exn :=
| AttributeError
| UnboundLocalError
| JSONDecodeError
| ConnectionError
| FileNotFoundError
| IsADirectoryError
| UnidentifiedImageError.

(** The state the program runs in.  [fs] is keyed by absolute, normalized
    paths (no symbolic links); [http] holds the replies the endpoint will
    give to the next posts; [secret] is
    [st.secrets.get("HUGGING_FACE_API_TOKEN")]. *)
Record world := {
  session : session_state;
  secret : option pystr;
  fs : gmap pystr node;
  cwd : pystr;
  db : database;
  clock : Z;
  http : list response;
  trace : list event
}.

Definition set_session (s : session_state) (w : world) : world :=
  {| session := s; secret := secret w; fs := fs w; cwd := cwd w; db := db w;
     clock := clock w; http := http w; trace := trace w |}.
Definition set_fs (f : gmap pystr node) (w : world) : world :=
  {| session := session w; secret := secret w; fs := f; cwd := cwd w; db := db w;
     clock := clock w; http := http w; trace := trace w |}.
Definition set_db (d : database) (w : world) : world :=
  {| session := session w; secret := secret w; fs := fs w; cwd := cwd w; db := d;
     clock := clock w; http := http w; trace := trace w |}.
Definition set_clock (t : Z) (w : world) : world :=
  {| session := session w; secret := secret w; fs := fs w; cwd := cwd w; db := db w;
     clock := t; http := http w; trace := trace w |}.
Definition set_http (h : list response) (w : world) : world :=
  {| session := session w; secret := secret w; fs := fs w; cwd := cwd w; db := db w;
     clock := clock w; http := h; trace := trace w |}.
Definition set_trace (t : list event) (w : world) : world :=
  {| session := session w; secret := secret w; fs := fs w; cwd := cwd w; db := db w;
     clock := clock w; http := http w; trace := t |}.

(** What the imaging and encoding libraries compute. *)
Class Platform := {
  (** [Image.open(io.BytesIO(data))]; [None] when PIL cannot identify it *)
  Image_open : list Byte.byte -> option image;
  (** the bytes [image.save] writes for a [.png] name *)
  png_encode : image -> list Byte.byte;
  (** [base64.b64encode(data).decode('utf-8')] *)
  b64encode : list Byte.byte -> pystr;
  (** [t.strftime("%Y%m%d_%H%M%S")] *)
  strftime : Z -> pystr
}.

(** ** The monad of Python computations: state and exceptions *)

Inductive outcome (A : Type) :=
| Ok (a : A) (w : world)
| Raise (e : exn) (w : world).
Arguments Ok {A} a w.
Arguments Raise {A} e w.

Definition M (A : Type) : Type := world -> outcome A.

Definition ret {A} (a : A) : M A := fun w => Ok a w.

Definition bind {A B} (c : M A) (k : A -> M B) : M B :=
  fun w => match c w with
           | Ok a w' => k a w'
           | Raise e w' => Raise e w'
           end.

Definition raise {A} (e : exn) : M A := fun w => Raise e w.

(** [try: c  except: h] with a bare [except]. *)
Definition try_except {A} (c : M A) (h : M A) : M A :=
  fun w => match c w with
           | Ok a w' => Ok a w'
           | Raise _ w' => h w'
           end.

Notation "x <- c ;; k" := (bind c (fun x => k))
  (at level 100, c at next level, right associativity).
Notation "c ;; k" := (bind c (fun _ => k))
  (at level 100, right associativity).

Definition emit (e : event) : M unit :=
  fun w => Ok tt (set_trace (trace w ++ [e]) w).

(** [st.error(msg)] *)
Definition st_error (msg : pystr) : M unit := emit (EvError msg).

Definition get_session : M session_state := fun w => Ok (session w) w.
Definition put_session (s : session_state) : M unit :=
  fun w => Ok tt (set_session s w).

(** Reading an attribute of [st.session_state] that is not there raises. *)
Definition getattr {A} (field : session_state -> option A) : M A :=
  s <- get_session ;;
  match field s with
  | Some v => ret v
  | None => raise AttributeError
  end.

Definition set_demo_mode (b : bool) : M unit :=
  s <- get_session ;;
  put_session {| demo_mode := Some b;
                 last_request_time := last_request_time s;
                 request_count := request_count s |}.
Definition set_last_request_time (t : Z) : M unit :=
  s <- get_session ;;
  put_session {| demo_mode := demo_mode s;
                 last_request_time := Some t;
                 request_count := request_count s |}.
Definition set_request_count (n : Z) : M unit :=
  s <- get_session ;;
  put_session {| demo_mode := demo_mode s;
                 last_request_time := last_request_time s;
                 request_count := Some n |}.

(** [time.time()] and [datetime.now()] read the clock (in seconds);
    [time.sleep] lets it advance. *)
Definition time_time : M Z := fun w => Ok (clock w) w.
Definition datetime_now : M Z := fun w => Ok (clock w) w.
Definition time_sleep (secs : Z) : M unit :=
  emit (EvSleep secs) ;;
  fun w => Ok tt (set_clock (clock w + secs) w).

Definition secrets_get : M (option pystr) := fun w => Ok (secret w) w.

(** *** The file system *)

Definition os_path_abspath (path : pystr) : M pystr :=
  fun w => Ok (abspath (cwd w) path) w.

(** [os.path.exists(path)] *)
Definition os_path_exists (path : pystr) : M bool :=
  fun w => Ok (bool_decide (is_Some (fs w !! abspath (cwd w) path))) w.

(** [os.remove(path)] *)
Definition os_remove (path : pystr) : M unit :=
  fun w =>
    let p := abspath (cwd w) path in
    match fs w !! p with
    | Some (File _) => Ok tt (set_fs (delete p (fs w)) (set_trace (trace w ++ [EvRemove p]) w))
    | Some Dir => Raise IsADirectoryError w
    | None => Raise FileNotFoundError w
    end.

(** [open(path, "rb").read()] *)
Definition read_file (path : pystr) : M (list Byte.byte) :=
  fun w =>
    let p := abspath (cwd w) path in
    match fs w !! p with
    | Some (File data) => Ok data (set_trace (trace w ++ [EvRead p]) w)
    | Some Dir => Raise IsADirectoryError w
    | None => Raise FileNotFoundError w
    end.

(** Writing a file: its directory has to exist, and the name must not be
    that of a directory. *)
Definition write_file (path : pystr) (data : list Byte.byte) : M unit :=
  fun w =>
    let p := abspath (cwd w) path in
    match fs w !! dirname p, fs w !! p with
    | Some Dir, Some Dir => Raise IsADirectoryError w
    | Some Dir, _ => Ok tt (set_fs (<[p := File data]> (fs w)) (set_trace (trace w ++ [EvWrite p]) w))
    | _, _ => Raise FileNotFoundError w
    end.

(** *** The table [prompts] *)

Definition max_rowid (rows : list row) : Z := fold_right Z.max 0 (map id rows).

(** [INSERT INTO prompts (prompt, expected_style, filename, created_at)]
    followed by [SELECT last_insert_rowid()]: score and feedback are NULL and
    the id is one more than the largest rowid the table ever held. *)
Definition insert_prompt (prompt expected_style filename : pystr) (created_at : Z) : M Z :=
  fun w =>
    let d := db w in
    let rowid := Z.max (sqlite_sequence d) (max_rowid (prompts d)) + 1 in
    let r := {| id := rowid; prompt := prompt; expected_style := expected_style;
                filename := filename; created_at := created_at;
                score := None; feedback := None |} in
    Ok rowid (set_db {| prompts := prompts d ++ [r]; sqlite_sequence := rowid |}
                     (set_trace (trace w ++ [EvInsert r]) w)).

(** [DELETE FROM prompts WHERE id = ?] *)
Definition delete_prompt (prompt_id : Z) : M unit :=
  fun w =>
    let d := db w in
    Ok tt (set_db {| prompts := filter (fun r => id r <> prompt_id) (prompts d);
                     sqlite_sequence := sqlite_sequence d |}
                  (set_trace (trace w ++ [EvDelete prompt_id]) w)).

(** [UPDATE prompts SET score = ?, feedback = ? WHERE id = ?] *)
Definition update_prompt (prompt_id score : Z) (feedback : pystr) : M unit :=
  fun w =>
    let d := db w in
    let upd r :=
      if bool_decide (id r = prompt_id)
      then {| id := id r; prompt := prompt r; expected_style := expected_style r;
              filename := filename r; created_at := created_at r;
              score := Some score; feedback := Some feedback |}
      else r in
    Ok tt (set_db {| prompts := map upd (prompts d);
                     sqlite_sequence := sqlite_sequence d |}
                  (set_trace (trace w ++ [EvUpdate prompt_id]) w)).

(** The row with a given id, if the table has one: the spec's [get], for
    which [app.py] has no function of its own. *)
Definition get (d : database) (prompt_id : Z) : option row :=
  find (fun r => bool_decide (id r = prompt_id)) (prompts d).

(** *** The inference endpoint *)

(** [requests.post(url, headers=..., json={"inputs": prompt})]: the next
    scripted reply; with none left the connection fails. *)
Definition requests_post (url authorization inputs : pystr) : M response :=
  fun w =>
    match http w with
    | [] => Raise ConnectionError (set_trace (trace w ++ [EvPost url authorization inputs]) w)
    | r :: rest => Ok r (set_http rest (set_trace (trace w ++ [EvPost url authorization inputs]) w))
    end.

(** [response.json().get("error", "Unknown error")] *)
Definition json_get_error (r : response) : M pystr :=
  match json r with
  | NotJson => raise JSONDecodeError
  | JsonNotObject => raise AttributeError
  | JsonObject members =>
      ret (match find (fun kv => str_eqb (fst kv) (py "error")) members with
           | Some kv => snd kv
           | None => py "Unknown error"
           end)
  end.

(** ** PromptValidator: [validate_prompt] *)

Definition EmptyPrompt : pystr := py "Prompt cannot be empty.".
Definition PromptTooLong : pystr := py "Prompt is too long (max 500 characters).".

Definition validate_prompt (prompt : pystr) : M (option pystr) :=
  if negb (truthy prompt) || (length (strip prompt) =? 0)%nat then
    st_error EmptyPrompt ;;
    ret None
  else if (500 <? length prompt)%nat then
    st_error PromptTooLong ;;
    ret None
  else
    let cleaned_prompt := join (py " ") (split (strip prompt)) in
    ret (Some cleaned_prompt).

(** ** RateLimiter: [check_rate_limit] *)

Definition RateLimitExceeded : pystr :=
  py "Rate limit exceeded. Please wait a minute before generating another image.".

Definition check_rate_limit : M bool :=
  s <- get_session ;;
  (match last_request_time s with
   | None => set_last_request_time 0 ;; set_request_count 0
   | Some _ => ret tt
   end) ;;
  current_time <- time_time ;;
  last <- getattr last_request_time ;;
  (if current_time - last >? 60 then set_request_count 0 else ret tt) ;;
  count <- getattr request_count ;;
  set_request_count (count + 1) ;;
  set_last_request_time current_time ;;
  count <- getattr request_count ;;
  if count >? 5 then
    st_error RateLimitExceeded ;;
    ret false
  else ret true.

(** ** GenerationClient: [generate_image] *)

Definition FLUX : pystr := py "black-forest-labs/FLUX.1-dev".
Definition SDXL : pystr := py "stabilityai/stable-diffusion-xl-base-1.0".

(** The table from style to model. *)
Definition model_id_of (style : option pystr) : pystr :=
  if bool_decide (style = Some (py "cyberpunk")) then FLUX
  else if bool_decide (style = Some (py "cartoon")) then FLUX
  else SDXL.

Definition placeholder : image := Image_new (py "RGB") (512, 512) (73, 109, 137).

(** The message shown when the reply carries an error text. *)
Definition api_error_message (error_msg : pystr) (status : Z) : pystr :=
  py "Failed to generate image: " ++ error_msg
    ++ py " (Status code: " ++ str_of_Z status ++ py ")".

(** The message shown when no error text can be read from the reply. *)
Definition generic_error_message (status : Z) : pystr :=
  py "Failed to generate image: API error (Status code: "
    ++ str_of_Z status ++ py ")".

(** Lines 98-105: report the failed reply and return [None]. *)
Definition report_failure (r : response) : M (option image) :=
  try_except
    (error_msg <- json_get_error r ;;
     st_error (api_error_message error_msg (status_code r)))
    (st_error (generic_error_message (status_code r))) ;;
  ret None.

Section WithPlatform.
Context `{Platform}.

(** [Image.open(io.BytesIO(data))] *)
Definition image_open (data : list Byte.byte) : M image :=
  match Image_open data with
  | Some img => ret img
  | None => raise UnidentifiedImageError
  end.

(** [image.save(filename)] *)
Definition image_save (img : image) (filename : pystr) : M unit :=
  write_file filename (png_encode img).

(** The loop [for attempt in range(3)] of lines 83-97 over the attempts
    still to make.  [inl img]: the function returned [img] from inside the
    loop; [inr last]: the loop was left, by [break] or at its end, with
    [last] the value of the variable [response], if it was ever bound. *)
Fixpoint attempt_loop (API_URL authorization prompt : pystr)
    (attempts : list Z) (last : option response) : M (image + option response) :=
  match attempts with
  | [] => ret (inr last)
  | attempt :: rest =>
      response <- requests_post API_URL authorization prompt ;;
      if status_code response =? 200 then
        img <- image_open (content response) ;;
        ret (inl img)
      else if status_code response =? 429 then
        time_sleep (2 ^ attempt) ;;
        attempt_loop API_URL authorization prompt rest (Some response)
      else ret (inr (Some response))
  end.

(** The [else] branch of [generate_image], lines 74-105. *)
Definition generate_live (API_TOKEN : option pystr) (prompt : pystr)
    (style : option pystr) : M (option image) :=
  let authorization := py "Bearer " ++ default (py "None") API_TOKEN in
  let model_id := model_id_of style in
  let API_URL := py "https://api-inference.huggingface.co/models/" ++ model_id in
  r <- attempt_loop API_URL authorization prompt [0; 1; 2] None ;;
  match r with
  | inl img => ret (Some img)
  | inr None => raise UnboundLocalError
  | inr (Some response) => report_failure response
  end.

Definition generate_image (prompt : pystr) (style : option pystr) : M (option image) :=
  API_TOKEN <- secrets_get ;;
  (if negb (truthy (default [] API_TOKEN)) then
     st_error (py "Hugging Face API token not configured. Using demo mode.") ;;
     set_demo_mode true
   else ret tt) ;;
  s <- get_session ;;
  if default true (demo_mode s) then
    time_sleep 3 ;;
    ret (Some placeholder)
  else generate_live API_TOKEN prompt style.

(** ** RecordStore: [save_image], [delete_image], [load_image],
       [update_evaluation], [get_image_base64] *)

Definition ImageTooLarge : pystr := py "Image dimensions are too large.".

Definition save_image (img : image) (prompt expected_style : pystr)
    : M (option pystr * option Z) :=
  if (fst (size img) >? 4096) || (snd (size img) >? 4096) then
    st_error ImageTooLarge ;;
    ret (None, None)
  else
    now <- datetime_now ;;
    let timestamp := strftime now in
    let filename := py "generated_images/image_" ++ timestamp ++ py ".png" in
    image_save img filename ;;
    now <- datetime_now ;;
    prompt_id <- insert_prompt prompt expected_style filename now ;;
    ret (Some filename, Some prompt_id).

Definition delete_image (prompt_id : Z) (filename : pystr) : M unit :=
  e <- os_path_exists filename ;;
  (if e then os_remove filename else ret tt) ;;
  delete_prompt prompt_id.

Definition load_image (filename : pystr) : M (option image) :=
  e <- os_path_exists filename ;;
  if e then
    data <- read_file filename ;;
    img <- image_open data ;;
    ret (Some img)
  else ret None.

Definition update_evaluation (prompt_id : option Z) (score : Z) (feedback : pystr)
    : M unit :=
  match prompt_id with
  | None => st_error (py "Cannot submit rating: No prompt ID available.")
  | Some prompt_id => update_prompt prompt_id score feedback
  end.

Definition get_image_base64 (image_path : pystr) : M (option pystr) :=
  base_dir <- os_path_abspath (py "generated_images") ;;
  full_path <- os_path_abspath image_path ;;
  if negb (startswith full_path base_dir) then ret None
  else
    e <- os_path_exists full_path ;;
    if negb e then ret None
    else
      data <- read_file full_path ;;
      ret (Some (b64encode data)).

End WithPlatform.

(** ** EvaluationAggregator: the evaluation report of [main] *)

(** [[p for p in prompts if p["score"] is not None]] *)
Definition evaluated_prompts (prompts : list row) : list row :=
  filter (fun p => score p <> None) prompts.

(** [p["score"]] of an evaluated row. *)
Definition score_of (p : row) : Z := default 0 (score p).

(** [sum(l)] *)
Definition py_sum (l : list Z) : Z := fold_left Z.add l 0.

(** [a / n] for an integer [a] and a length [n]: the float is taken to be
    the exact quotient, in lowest terms.  Python raises ZeroDivisionError
    for [n = 0]; both call sites divide by the length of a list that is not
    empty. *)
Definition true_div (a : Z) (n : nat) : Q :=
  Qred (inject_Z a / inject_Z (Z.of_nat n)).

(** [sum(p["score"] for p in evaluated_prompts) / len(evaluated_prompts)] *)
Definition avg_score (evaluated : list row) : Q :=
  true_div (py_sum (map score_of evaluated)) (length evaluated).

(** One round of the loop of lines 323-327 over the evaluated rows. *)
Definition styles_step (styles : gmap pystr (list Z)) (p : row) : gmap pystr (list Z) :=
  let style := expected_style p in
  let styles := match styles !! style with
                | None => <[style := []]> styles
                | Some _ => styles
                end in
  <[style := default [] (styles !! style) ++ [score_of p]]> styles.

(** The dictionary [styles] after the loop. *)
Definition styles_of (evaluated : list row) : gmap pystr (list Z) :=
  fold_left styles_step evaluated ∅.

(** The averages of lines 328-329, one per key of [styles]. *)
Definition style_averages (evaluated : list row) : gmap pystr Q :=
  (fun scores => true_div (py_sum scores) (length scores)) <$> styles_of evaluated.

(** What the report tab shows: [None] stands for the branch that only says
    that there are no evaluations yet. *)
Definition evaluation_report (prompts : list row) : option (Q * gmap pystr Q) :=
  let evaluated := evaluated_prompts prompts in
  if bool_decide (evaluated = []) then None
  else Some (avg_score evaluated, style_averages evaluated).

(** The spec's names for the two results. *)
Definition overallAverage (prompts : list row) : option Q :=
  fst <$> evaluation_report prompts.
Definition averageByStyle (prompts : list row) : option (gmap pystr Q) :=
  snd <$> evaluation_report prompts.

(** ** Vocabulary of the specification *)

(** A word: a non-empty run of non-whitespace characters. *)
Definition nospace (w : pystr) : Prop := Forall (fun c => isspace c = false) w.
Definition allspace (s : pystr) : Prop := Forall (fun c => isspace c = true) s.
Definition word (w : pystr) : Prop := w <> [] /\ nospace w.

(** Where a word ends: at the end of the string or before whitespace. *)
Definition boundary (s : pystr) : Prop :=
  match s with
  | [] => True
  | c :: _ => isspace c = true
  end.

(** [tokens s ws]: the string [s] is the words [ws], in this order, with
    whitespace before, between and after them and nothing else. *)
Inductive tokens : pystr -> list pystr -> Prop :=
| tokens_end sp : allspace sp -> tokens sp []
| tokens_word sp w rest ws :
    allspace sp -> word w -> boundary rest -> tokens rest ws ->
    tokens (sp ++ w ++ rest) (w :: ws).

(** [y] is [x] with leading and trailing whitespace removed and every
    internal run of whitespace collapsed to one space. *)
Definition collapsed (x y : pystr) : Prop :=
  exists ws, tokens x ws /\ y = join [SP] ws.

(** [validate_prompt] rejecting with message [msg]: the message is shown and
    [None] returned. *)
Definition rejected (msg : pystr) (w : world) : outcome (option pystr) :=
  Ok None (set_trace (trace w ++ [EvError msg]) w).

(** *** Outcomes *)

(** The world an outcome ends in, and the events a computation started in
    [w] has added to the trace. *)
Definition outcome_world {A} (o : outcome A) : world :=
  match o with Ok _ w => w | Raise _ w => w end.
Definition result_of {A} (o : outcome A) : option A :=
  match o with Ok a _ => Some a | Raise _ _ => None end.
Definition events_of {A} (w : world) (o : outcome A) : list event :=
  drop (length (trace w)) (trace (outcome_world o)).

(** *** The rate limiter *)

(** The limiter state a session holds: [(last_request_time, request_count)].
    A session without the key [last_request_time] is initialised to
    [(0, 0)] by the first call; one with that key and no [request_count]
    holds no state. *)
Definition limiter_view (s : session_state) : option (Z * Z) :=
  match last_request_time s, request_count s with
  | None, _ => Some (0, 0)
  | Some last, Some count => Some (last, count)
  | Some _, None => None
  end.

(** One call of the limiter at time [now], as [check_rate_limit] makes it:
    the count starts again when the previous call is more than 60 seconds
    back, and the time of the previous call is replaced by [now]. *)
Definition limiter_step (now : Z) (st : Z * Z) : bool * (Z * Z) :=
  let '(last, count) := st in
  let count' := (if now - last >? 60 then 0 else count) + 1 in
  (count' <=? 5, (now, count')).

(** The fixed-window limiter in the words of the specification: the window
    start moves only when the count is reset. *)
Definition tryAcquire_fixed_window (now : Z) (st : Z * Z) : bool * (Z * Z) :=
  let '(windowStart, count) := st in
  let '(windowStart, count) :=
    if now - windowStart >? 60 then (now, 0) else (windowStart, count) in
  let count := count + 1 in
  (count <=? 5, (windowStart, count)).

(** The world after a call of the limiter that leaves it in state [st]. *)
Definition after_call (allowed : bool) (st : Z * Z) (w : world) : world :=
  set_trace (trace w ++ (if allowed then [] else [EvError RateLimitExceeded]))
    (set_session {| demo_mode := demo_mode (session w);
                    last_request_time := Some (fst st);
                    request_count := Some (snd st) |} w).

(** Calls of the limiter at the times [times], in this order. *)
Fixpoint run_calls (times : list Z) : M (list bool) :=
  match times with
  | [] => ret []
  | t :: rest =>
      (fun w => Ok tt (set_clock t w)) ;;
      allowed <- check_rate_limit ;;
      alloweds <- run_calls rest ;;
      ret (allowed :: alloweds)
  end.

(** The same calls made to the fixed-window limiter of the
    specification, from state [st]. *)
Fixpoint fixed_window_calls (times : list Z) (st : Z * Z) : list bool * (Z * Z) :=
  match times with
  | [] => ([], st)
  | t :: rest =>
      let '(allowed, st) := tryAcquire_fixed_window t st in
      let '(alloweds, st) := fixed_window_calls rest st in
      (allowed :: alloweds, st)
  end.

(** No two consecutive calls are more than 60 seconds apart. *)
Fixpoint steady (last : Z) (times : list Z) : Prop :=
  match times with
  | [] => True
  | t :: rest => t - last <= 60 /\ steady t rest
  end.

(** *** The generation client *)


(** Session, secret, files and table are the same in both worlds. *)
Definition same_stores (w w' : world) : Prop :=
  session w' = session w /\ secret w' = secret w /\ fs w' = fs w /\
  cwd w' = cwd w /\ db w' = db w.


(** Live mode: a credential is configured and the flag is set to false. *)
Definition live_mode (w : world) : Prop :=
  truthy (default [] (secret w)) = true /\ demo_mode (session w) = Some false.


Definition is_429 (r : response) : Prop := status_code r = 429.

(** The request [generate_image] posts in world [w]. *)
Definition the_post (w : world) (prompt : pystr) (style : option pystr) : event :=
  EvPost (py "https://api-inference.huggingface.co/models/" ++ model_id_of style)
         (py "Bearer " ++ default (py "None") (secret w)) prompt.

(** The events of failed attempts: each one posts and then sleeps
    [2 ^ attempt] seconds. *)
Definition retry_events (post : event) (attempts : list Z) : list event :=
  concat (map (fun attempt => [post; EvSleep (2 ^ attempt)]) attempts).

(** The message of the error path for reply [r]: the error text of the
    body when the body is a JSON object, a generic text otherwise. *)
Definition failure_message (r : response) : pystr :=
  match json r with
  | JsonObject members =>
      api_error_message
        (match find (fun kv => str_eqb (fst kv) (py "error")) members with
         | Some kv => snd kv
         | None => py "Unknown error"
         end) (status_code r)
  | _ => generic_error_message (status_code r)
  end.

(** The operation failed with status [r] and message [failure_message r]:
    the message is shown and no image is returned. *)
Definition generation_error (r : response) (w : world)
    (o : outcome (option image)) (before : list event) (rest : list response) : Prop :=
  exists w', o = Ok None w' /\
    trace w' = trace w ++ before ++ [EvError (failure_message r)] /\
    http w' = rest /\ same_stores w w'.

(** *** The evaluation aggregator *)

(** The arithmetic mean of a list of integers, as a rational number. *)
Definition mean (l : list Z) : Q :=
  inject_Z (foldr Z.add 0 l) / inject_Z (Z.of_nat (length l)).

(** The scores that are present, of all records and of those of one
    style. *)
Definition scores (prompts : list row) : list Z := omap score prompts.
Definition scores_of_style (style : pystr) (prompts : list row) : list Z :=
  omap score (filter (fun p => expected_style p = style) prompts).

(** The records of the example of the specification. *)
Definition record (style : pystr) (s : option Z) : row :=
  {| id := 0; prompt := py "a red fox"; expected_style := style;
     filename := py "generated_images/image_1.png"; created_at := 0;
     score := s; feedback := None |}.

Definition example_records : list row :=
  [record (py "realistic") (Some 6); record (py "realistic") (Some 8);
   record (py "cartoon") (Some 10)].

(** *** The blob root *)

(** The absolute path [p] is the directory [base] or lies below it. *)
Definition inside (base p : pystr) : Prop :=
  p = base \/ exists rel, p = base ++ [SLASH] ++ rel.

(** A platform and a world to run examples in. *)
Definition test_platform : Platform := {|
  Image_open := fun data =>
    match data with
    | [] => None
    | _ => Some {| mode := py "RGB"; size := (512, 512); pixels := Decoded data |}
    end;
  png_encode := fun img =>
    match pixels img with Solid _ _ _ => [x89; x50] | Decoded data => data end;
  b64encode := fun data => map (fun b => N.of_nat (Byte.to_nat b)) data;
  strftime := fun _ => py "20240101_120000"
|}.

Definition fresh_session : session_state :=
  {| demo_mode := None; last_request_time := None; request_count := None |}.

Definition test_world : world := {|
  session := fresh_session;
  secret := Some (py "hf_token");
  fs := {[ py "/app" := Dir; py "/app/generated_images" := Dir ]};
  cwd := py "/app";
  db := {| prompts := []; sqlite_sequence := 0 |};
  clock := 1000;
  http := [];
  trace := []
|}.

(** A world with a file next to the blob root, in a directory whose name
    starts like the root's. *)
Definition world_with_sibling : world :=
  set_fs (<[py "/app/generated_images_old" := Dir]>
          (<[py "/app/generated_images_old/secret.png" := File [x2a; x2b]]>
           (fs test_world)))
         test_world.

(** A world in live mode whose endpoint answers 429, 429 and then 200 with
    a body that decodes. *)
Definition reply (status : Z) (body : list Byte.byte) (j : json_body) : response :=
  {| status_code := status; content := body; json := j |}.

Definition live_world (replies : list response) : world :=
  set_http replies
    (set_session {| demo_mode := Some false; last_request_time := None;
                    request_count := None |} test_world).

(** ** Further vocabulary *)

(** The number of requests posted and the seconds slept in a list of
    events. *)
Fixpoint posts_in (evs : list event) : nat :=
  match evs with
  | [] => 0
  | EvPost _ _ _ :: evs' => S (posts_in evs')
  | _ :: evs' => posts_in evs'
  end.

Fixpoint slept_in (evs : list event) : Z :=
  match evs with
  | [] => 0
  | EvSleep secs :: evs' => secs + slept_in evs'
  | _ :: evs' => slept_in evs'
  end.

(** The events [generate_image] can add to the trace when called with
    [prompt] and [style] in world [w]. *)
Definition generation_event (w : world) (prompt : pystr) (style : option pystr)
    (e : event) : Prop :=
  e = the_post w prompt style \/ (exists secs, e = EvSleep secs) \/
  (exists msg, e = EvError msg).

(** No whitespace character is followed by another one. *)
Fixpoint spaced_once (s : pystr) : Prop :=
  match s with
  | a :: (b :: _) as t => (isspace a = true -> isspace b = false) /\ spaced_once t
  | _ => True
  end.

(** The characters of a string that are not whitespace. *)
Definition ink (s : pystr) : pystr := filter (fun c => isspace c = false) s.

(** The row [r] with an evaluation. *)
Definition with_evaluation (score : Z) (feedback : pystr) (r : row) : row :=
  {| id := id r; prompt := prompt r; expected_style := expected_style r;
     filename := filename r; created_at := created_at r;
     score := Some score; feedback := Some feedback |}.

(** The ids of the table are pairwise different and none lies above the
    AUTOINCREMENT counter. *)
Definition table_ok (d : database) : Prop :=
  NoDup (map id (prompts d)) /\
  Forall (fun r => id r <= sqlite_sequence d) (prompts d).

(** The row [save_image] inserts. *)
Definition new_row (rowid : Z) (prompt expected_style filename : pystr)
    (created_at : Z) : row :=
  {| id := rowid; prompt := prompt; expected_style := expected_style;
     filename := filename; created_at := created_at;
     score := None; feedback := None |}.

(** The test world after one record has been saved. *)
Definition saved_world : world :=
  outcome_world
    (@save_image test_platform placeholder (py "a red fox") (py "cartoon") test_world).

Definition saved_file : pystr := py "generated_images/image_20240101_120000.png".

(** ** The handlers of [main] *)

Section Handlers.
Context `{Platform}.

(** The handler of the form "Generate Image", lines 213-222.  The result is
    the id stored under [latest_prompt_id], or [None] when nothing is
    stored.  An image object is always true; [st.success] and [st.image]
    only display. *)
Definition submit (prompt expected_style : pystr) : M (option Z) :=
  cleaned_prompt <- validate_prompt prompt ;;
  match cleaned_prompt with
  | None => ret None
  | Some cleaned_prompt =>
      if negb (truthy cleaned_prompt) then ret None
      else
        allowed <- check_rate_limit ;;
        if negb allowed then ret None
        else
          image <- generate_image cleaned_prompt (Some expected_style) ;;
          match image with
          | None => ret None
          | Some image =>
              r <- save_image image cleaned_prompt expected_style ;;
              match fst r with
              | None => ret None
              | Some filename =>
                  if truthy filename then ret (snd r) else ret None
              end
          end
  end.

End Handlers.

(** [l[a:b]] for integers [a] and [b]: negative indices count from the
    end, and both are clipped to the list. *)
Definition slice_index {A} (l : list A) (i : Z) : Z :=
  let n := Z.of_nat (length l) in
  if i <? 0 then Z.max 0 (i + n) else Z.min i n.

Definition py_slice {A} (l : list A) (a b : Z) : list A :=
  let a' := slice_index l a in
  let b' := slice_index l b in
  take (Z.to_nat (b' - a')) (drop (Z.to_nat a') l).

(** The gallery, lines 243-251: the rows of the chosen style, the number of
    pages, and the rows of one page. *)
Definition images_per_page : Z := 9.

Definition filtered_prompts (filter_style : pystr) (prompts : list row) : list row :=
  if str_eqb filter_style (py "All") then prompts
  else filter (fun p => expected_style p = filter_style) prompts.

Definition total_pages (filtered : list row) : Z :=
  (Z.of_nat (length filtered) + images_per_page - 1) / images_per_page.

Definition paginated_prompts (page : Z) (filtered : list row) : list row :=
  let start_idx := (page - 1) * images_per_page in
  let end_idx := start_idx + images_per_page in
  py_slice filtered start_idx end_idx.

(** The pages the number input offers: from 1 to [max(1, total_pages)]. *)
Definition selectable (page : Z) (filtered : list row) : Prop :=
  1 <= page <= Z.max 1 (total_pages filtered).

(** ** Paths *)

(** A component of a normalized path: not empty, not [.] or [..], and
    without a slash. *)
Definition clean (comp : pystr) : Prop :=
  comp <> [] /\ comp <> py "." /\ comp <> py ".." /\ ~ In SLASH comp.

(** The absolute path with the components [comps]. *)
Definition path_of (comps : list pystr) : pystr := SLASH :: join [SLASH] comps.

(** The number of leading slashes [normpath] keeps for an absolute path:
    two when the path starts with exactly two, else one. *)
Definition initial_slashes_of (path : pystr) : nat :=
  if startswith path [SLASH] then
    if startswith path [SLASH; SLASH] && negb (startswith path [SLASH; SLASH; SLASH])
    then 2%nat else 1%nat
  else 0%nat.

(** * Properties *)
(** *** Words, whitespace and normal forms *)

Lemma py_space : py " " = [SP].
Proof. reflexivity. Qed.

Lemma lstrip_length s : (length (lstrip s) <= length s)%nat.
Proof.
  induction s as [|c s IH]; simpl; [lia|].
  destruct (isspace c); simpl; lia.
Qed.

Lemma rstrip_length s : (length (rstrip s) <= length s)%nat.
Proof.
  unfold rstrip. rewrite length_rev.
  etransitivity; [apply lstrip_length|]. now rewrite length_rev.
Qed.

Lemma strip_length s : (length (strip s) <= length s)%nat.
Proof.
  unfold strip. etransitivity; [apply rstrip_length|apply lstrip_length].
Qed.

Lemma lstrip_head s c t : lstrip s = c :: t -> isspace c = false.
Proof.
  induction s as [|a s IH]; simpl; [discriminate|].
  destruct (isspace a) eqn:E; [exact IH|].
  intros [= <- _]. exact E.
Qed.

Lemma lstrip_fix c t : isspace c = false -> lstrip (c :: t) = c :: t.
Proof. intros H. simpl. now rewrite H. Qed.

(** [lstrip] removes a prefix of whitespace and nothing else. *)
Lemma lstrip_decomp s : exists sp, allspace sp /\ s = sp ++ lstrip s.
Proof.
  induction s as [|a s (sp & Hsp & IH)]; simpl.
  - exists []. split; [constructor|reflexivity].
  - destruct (isspace a) eqn:E.
    + exists (a :: sp). split; [constructor; assumption|].
      simpl. now rewrite <- IH.
    + exists []. split; [constructor|reflexivity].
Qed.

Lemma rstrip_decomp s : exists sp, allspace sp /\ s = rstrip s ++ sp.
Proof.
  destruct (lstrip_decomp (rev s)) as (sp & Hsp & E).
  exists (rev sp). split.
  - unfold allspace in *. rewrite Forall_forall in *.
    intros c Hc. apply Hsp. now apply list_elem_of_In, in_rev, list_elem_of_In.
  - unfold rstrip. rewrite <- rev_app_distr, <- E. now rewrite rev_involutive.
Qed.

Lemma rstrip_fix t c : isspace c = false -> rstrip (t ++ [c]) = t ++ [c].
Proof.
  intros H. unfold rstrip. rewrite rev_app_distr. simpl.
  rewrite H. simpl. now rewrite rev_involutive.
Qed.

(** A stripped string that is not empty ends in a non-whitespace
    character. *)
Lemma rstrip_last s : rstrip s <> [] ->
  exists t c, rstrip s = t ++ [c] /\ isspace c = false.
Proof.
  unfold rstrip. intros H.
  destruct (lstrip (rev s)) as [|c t] eqn:E; [now elim H|].
  exists (rev t), c. split; [reflexivity|]. eapply lstrip_head, E.
Qed.

(** *** [split] *)

Lemma split_go_word v w s :
  nospace v -> split_go w (v ++ s) = split_go (w ++ v) s.
Proof.
  intros Hv. revert w. induction Hv as [|c v Hc _ IH]; intros w; simpl.
  - now rewrite app_nil_r.
  - rewrite Hc, IH, <- app_assoc. reflexivity.
Qed.

Lemma split_go_spaces sp s : allspace sp -> split_go [] (sp ++ s) = split_go [] s.
Proof.
  induction 1 as [|c sp Hc _ IH]; simpl; [reflexivity|].
  now rewrite Hc.
Qed.

Lemma split_go_trailing w sp : allspace sp ->
  split_go w sp = match w with [] => [] | _ => [w] end.
Proof.
  intros H. revert w. induction H as [|c sp Hc _ IH]; intros w; simpl; [reflexivity|].
  rewrite Hc. rewrite (IH []). destruct w; reflexivity.
Qed.

Lemma split_go_app_spaces w s sp : allspace sp ->
  split_go w (s ++ sp) = split_go w s.
Proof.
  intros Hsp. revert w. induction s as [|c s IH]; intros w; simpl.
  - now apply split_go_trailing.
  - destruct (isspace c); [|apply IH].
    rewrite (IH []). reflexivity.
Qed.

(** The words [split] returns are words. *)
Lemma split_go_words s : forall w, nospace w -> Forall word (split_go w s).
Proof.
  induction s as [|c s IH]; intros w Hw; simpl.
  - destruct w; constructor; [|constructor]. split; [discriminate|assumption].
  - destruct (isspace c) eqn:E.
    + destruct w as [|a w].
      * apply IH. constructor.
      * constructor; [split; [discriminate|assumption]|]. apply IH. constructor.
    + apply IH. unfold nospace. apply Forall_app. split; [assumption|].
      constructor; [assumption|constructor].
Qed.

Lemma split_words s : Forall word (split s).
Proof. apply split_go_words. constructor. Qed.

(** [split] returns nothing only on whitespace. *)
Lemma split_go_nil w s : split_go w s = [] -> w = [] /\ allspace s.
Proof.
  revert w. induction s as [|c s IH]; intros w; simpl.
  - destruct w; [split; [reflexivity|constructor]|discriminate].
  - destruct (isspace c) eqn:E.
    + destruct w; [|discriminate].
      intros H. destruct (IH _ H) as [_ Hs]. split; [reflexivity|].
      constructor; assumption.
    + intros H. destruct (IH _ H) as [Hw _]. now destruct w.
Qed.

Lemma split_lstrip s : split (lstrip s) = split s.
Proof.
  unfold split. destruct (lstrip_decomp s) as (sp & Hsp & E).
  rewrite E at 2. now rewrite split_go_spaces.
Qed.

Lemma split_rstrip s : split (rstrip s) = split s.
Proof.
  unfold split. destruct (rstrip_decomp s) as (sp & Hsp & E).
  rewrite E at 2. now rewrite split_go_app_spaces.
Qed.

Lemma split_strip s : split (strip s) = split s.
Proof. unfold strip. now rewrite split_rstrip, split_lstrip. Qed.

(** *** [join] *)

Lemma join_cons sep w v ws :
  join sep (w :: v :: ws) = w ++ sep ++ join sep (v :: ws).
Proof. reflexivity. Qed.

Lemma join_length_cons sep w ws :
  (length (join sep (w :: ws)) <= length w + length sep + length (join sep ws))%nat.
Proof.
  destruct ws as [|v ws].
  - simpl. lia.
  - rewrite join_cons, !length_app. lia.
Qed.

Lemma join_split_go_length s : forall w,
  (length (join [SP] (split_go w s)) <= length w + length s)%nat.
Proof.
  induction s as [|c s IH]; intros w; simpl split_go.
  - destruct w; simpl; lia.
  - destruct (isspace c).
    + destruct w as [|a w].
      * specialize (IH []). simpl in *. lia.
      * etransitivity; [apply join_length_cons|].
        specialize (IH []). simpl in *. lia.
    + specialize (IH (w ++ [c])). rewrite length_app in IH. simpl in *. lia.
Qed.

Lemma split_go_SP w s :
  split_go w (SP :: s) =
  match w with [] => split_go [] s | _ => w :: split_go [] s end.
Proof. reflexivity. Qed.

(** Splitting a string of words separated by single spaces gives the words
    back. *)
Lemma split_join ws : Forall word ws -> split (join [SP] ws) = ws.
Proof.
  unfold split. induction 1 as [|w ws [Hne Hw] Hws IH]; [reflexivity|].
  destruct ws as [|v ws].
  - simpl. rewrite <- (app_nil_r w) at 1. rewrite split_go_word by assumption.
    simpl. now destruct w.
  - rewrite join_cons, split_go_word by assumption.
    change ([SP] ++ join [SP] (v :: ws)) with (SP :: join [SP] (v :: ws)).
    rewrite split_go_SP, IH. now destruct w.
Qed.

Lemma join_first ws : ws <> [] -> Forall word ws ->
  exists c t, join [SP] ws = c :: t /\ isspace c = false.
Proof.
  intros Hne H. destruct H as [|w ws [Hw Hns] _]; [now elim Hne|].
  destruct w as [|c w]; [now elim Hw|].
  inversion Hns; subst.
  destruct ws; simpl; eauto.
Qed.

Lemma word_last w : word w -> exists t c, w = t ++ [c] /\ isspace c = false.
Proof.
  intros [Hne Hns]. destruct (exists_last Hne) as (t & c & ->).
  exists t, c. split; [reflexivity|].
  apply Forall_app in Hns as [_ Hc]. now inversion Hc.
Qed.

Lemma join_last ws : ws <> [] -> Forall word ws ->
  exists t c, join [SP] ws = t ++ [c] /\ isspace c = false.
Proof.
  intros Hne H. induction H as [|w ws Hw Hws IH]; [now elim Hne|].
  destruct ws as [|v ws].
  - simpl. now apply word_last.
  - destruct IH as (t & c & E & Hc); [discriminate|].
    exists (w ++ [SP] ++ t), c. split; [|assumption].
    rewrite join_cons, E, <- !app_assoc. reflexivity.
Qed.

(** A string of words separated by single spaces is its own normal form. *)
Lemma strip_join ws : ws <> [] -> Forall word ws ->
  strip (join [SP] ws) = join [SP] ws.
Proof.
  intros Hne H. unfold strip.
  destruct (join_first ws Hne H) as (c & t & E & Hc).
  rewrite E, lstrip_fix, <- E by assumption.
  destruct (join_last ws Hne H) as (t' & c' & E' & Hc').
  rewrite E'. now apply rstrip_fix.
Qed.

(** *** [split] returns the words of its argument *)

Lemma tokens_space c s ws : isspace c = true -> tokens s ws -> tokens (c :: s) ws.
Proof.
  intros Hc Ht. destruct Ht as [sp Hsp|sp w rest ws Hsp Hw Hb Ht].
  - apply tokens_end. constructor; assumption.
  - apply (tokens_word (c :: sp)); try assumption. constructor; assumption.
Qed.

Lemma split_go_tokens s :
  (forall w, w <> [] -> nospace w ->
     exists v rest ws,
       s = v ++ rest /\ nospace v /\ boundary rest /\ tokens rest ws /\
       split_go w s = (w ++ v) :: ws) /\
  tokens s (split_go [] s).
Proof.
  induction s as [|c s [IHA IHB]].
  - split.
    + intros w Hne Hw. exists [], [], []. simpl.
      refine (conj eq_refl (conj _ (conj I (conj _ _)))).
      * constructor.
      * apply tokens_end. constructor.
      * rewrite app_nil_r. now destruct w.
    + apply tokens_end. constructor.
  - destruct (isspace c) eqn:E.
    + split.
      * intros w Hne Hw. exists [], (c :: s), (split_go [] s). simpl. rewrite E.
        refine (conj eq_refl (conj _ (conj eq_refl (conj _ _)))).
        -- constructor.
        -- now apply tokens_space.
        -- rewrite app_nil_r. now destruct w.
      * simpl. rewrite E. now apply tokens_space.
    + assert (A : forall w, nospace w ->
                exists v rest ws,
                  c :: s = v ++ rest /\ nospace v /\ boundary rest /\ tokens rest ws /\
                  split_go w (c :: s) = (w ++ v) :: ws).
      { intros w Hw.
        destruct (IHA (w ++ [c])) as (v & rest & ws & -> & Hv & Hb & Ht & Es).
        - now destruct w.
        - apply Forall_app. split; [assumption|]. now repeat constructor.
        - exists (c :: v), rest, ws. simpl. rewrite E.
          refine (conj eq_refl (conj _ (conj Hb (conj Ht _)))).
          + constructor; assumption.
          + rewrite Es, <- app_assoc. reflexivity. }
      split.
      * intros w _ Hw. now apply A.
      * destruct (A [] ltac:(constructor)) as (v & rest & ws & Ev & Hv & Hb & Ht & Es).
        rewrite Es, Ev. simpl.
        destruct v as [|a v]; [simpl in Ev; subst rest; simpl in Hb; congruence|].
        apply (tokens_word [] (a :: v) rest ws); try assumption.
        -- constructor.
        -- split; [discriminate|assumption].
Qed.

Lemma split_tokens s : tokens s (split s).
Proof. apply split_go_tokens. Qed.

(** The words of a string are determined by it. *)
Lemma tokens_split s ws : tokens s ws -> split s = ws.
Proof.
  unfold split. induction 1 as [sp Hsp|sp w rest ws Hsp [Hne Hw] Hb Ht IH].
  - now rewrite split_go_trailing.
  - rewrite split_go_spaces, split_go_word by assumption. simpl.
    destruct rest as [|c rest].
    + inversion Ht as [sp' _ E1 E2|sp' w' r' ws' _ [Hw' _] _ _ E1 E2]; subst.
      * simpl. now destruct w.
      * destruct sp', w'; try discriminate. now elim Hw'.
    + simpl in Hb. simpl. rewrite Hb.
      assert (E : split_go [] (c :: rest) = split_go [] rest)
        by (simpl; now rewrite Hb).
      rewrite <- E, IH. now destruct w.
Qed.

Lemma tokens_words s ws : tokens s ws -> Forall word ws.
Proof. intros H. rewrite <- (tokens_split s ws H). apply split_words. Qed.

(** *** [validate_prompt] *)

Lemma length_zero_nil (s : pystr) : length s = 0%nat <-> s = [].
Proof. destruct s; simpl; split; congruence. Qed.

Lemma strip_nil_of_nil : strip [] = [].
Proof. reflexivity. Qed.

(** The three outcomes of [validate_prompt], one per branch. *)
Lemma validate_prompt_empty x w :
  strip x = [] -> validate_prompt x w = rejected EmptyPrompt w.
Proof.
  intros E. unfold validate_prompt. rewrite E. simpl.
  now rewrite orb_true_r.
Qed.

Lemma nonempty_guard x :
  strip x <> [] -> negb (truthy x) || (length (strip x) =? 0)%nat = false.
Proof.
  intros E. destruct x as [|c x]; [now elim E|].
  destruct (strip (c :: x)); [now elim E|reflexivity].
Qed.

Lemma validate_prompt_too_long x w :
  strip x <> [] -> (500 < length x)%nat ->
  validate_prompt x w = rejected PromptTooLong w.
Proof.
  intros E L. unfold validate_prompt.
  rewrite (nonempty_guard x E).
  apply Nat.ltb_lt in L. now rewrite L.
Qed.

Lemma validate_prompt_ok x w :
  strip x <> [] -> (length x <= 500)%nat ->
  validate_prompt x w = Ok (Some (join [SP] (split x))) w.
Proof.
  intros E L. unfold validate_prompt.
  rewrite (nonempty_guard x E).
  apply Nat.ltb_ge in L. rewrite L, split_strip, py_space. reflexivity.
Qed.

Lemma messages_differ : EmptyPrompt <> PromptTooLong.
Proof. discriminate. Qed.

Lemma rejected_inj m1 m2 w : rejected m1 w = rejected m2 w -> m1 = m2.
Proof.
  unfold rejected. intros [= E]. apply app_inv_head in E. congruence.
Qed.

(** A string with a character that is not whitespace has a word. *)
Lemma strip_nonempty_split x : strip x <> [] -> split x <> [].
Proof.
  intros E Hs. rewrite <- split_strip in Hs.
  apply split_go_nil in Hs as [_ Hs].
  destruct (rstrip_last (lstrip x) E) as (t & c & Et & Hc).
  fold (strip x) in Et. rewrite Et in Hs.
  apply Forall_app in Hs as [_ Hs]. inversion Hs; congruence.
Qed.

(** The normal form is not longer than the input. *)
Lemma join_split_length x : (length (join [SP] (split x)) <= length x)%nat.
Proof. apply (join_split_go_length x []). Qed.

(** The normal form of a normal form is itself. *)
Lemma normal_form_fixed x :
  strip x <> [] ->
  let y := join [SP] (split x) in
  strip y = y /\ y <> [] /\ split y = split x.
Proof.
  intros E y. pose proof (strip_nonempty_split x E) as Hne.
  pose proof (split_words x) as Hw.
  assert (Hs : strip y = y) by now apply strip_join.
  split; [assumption|]. split.
  - destruct (join_first _ Hne Hw) as (c & t & Ey & _). unfold y. now rewrite Ey.
  - now apply split_join.
Qed.

(** What [validate_prompt] does, by cases on its argument. *)
Lemma validate_prompt_cases x w :
  (strip x = [] /\ validate_prompt x w = rejected EmptyPrompt w) \/
  (strip x <> [] /\ (500 < length x)%nat /\
   validate_prompt x w = rejected PromptTooLong w) \/
  (strip x <> [] /\ (length x <= 500)%nat /\
   validate_prompt x w = Ok (Some (join [SP] (split x))) w).
Proof.
  destruct (decide (strip x = [])) as [E|E].
  - left. split; [assumption|]. now apply validate_prompt_empty.
  - right. destruct (le_lt_dec (length x) 500) as [L|L].
    + right. split; [assumption|]. split; [assumption|].
      now apply validate_prompt_ok.
    + left. split; [assumption|]. split; [assumption|].
      now apply validate_prompt_too_long.
Qed.

(** C6, as the code has it.  [validate_prompt] rejects with EmptyPrompt
    exactly when the stripped input has length zero; it rejects with
    PromptTooLong exactly when the stripped input is not empty and the raw
    input is longer than 500 characters; and it succeeds exactly in the
    remaining case, leaving the world alone and returning the input with
    leading and trailing whitespace removed and every internal run of
    whitespace collapsed to a single space. *)
Theorem validate_prompt_spec (x : pystr) (w : world) :
  (validate_prompt x w = rejected EmptyPrompt w <-> length (strip x) = 0%nat) /\
  (validate_prompt x w = rejected PromptTooLong w <->
     length (strip x) <> 0%nat /\ (500 < length x)%nat) /\
  (forall y w',
     validate_prompt x w = Ok (Some y) w' <->
     length (strip x) <> 0%nat /\ (length x <= 500)%nat /\ w' = w /\ collapsed x y).
Proof.
  setoid_rewrite length_zero_nil.
  destruct (validate_prompt_cases x w) as [[E R]|[(E & L & R)|(E & L & R)]];
    rewrite R.
  - split; [tauto|]. split.
    + split; [|tauto]. intros D. apply rejected_inj in D. now elim messages_differ.
    + intros y w'. split; [discriminate|tauto].
  - split; [|split].
    + split; [|tauto]. intros D. apply rejected_inj in D.
      symmetry in D. now elim messages_differ.
    + tauto.
    + intros y w'. split; [discriminate|]. intros (_ & L' & _). lia.
  - split; [|split].
    + split; [discriminate|tauto].
    + split; [discriminate|]. intros [_ L']. lia.
    + intros y w'. split.
      * intros [= <- <-]. repeat split; try assumption.
        exists (split x). split; [apply split_tokens|reflexivity].
      * intros (_ & _ & -> & ws & Ht & ->).
        now rewrite (tokens_split x ws Ht).
Qed.

(** C6 on an example: two words between runs of blanks and tabs. *)
Lemma validate_prompt_spec_witness :
  collapsed (py "  a red 	 fox ") (py "a red fox").
Proof.
  destruct (validate_prompt_spec (py "  a red 	 fox ") test_world) as (_ & _ & H).
  apply (H (py "a red fox") test_world). reflexivity.
Defined.

(** C6 as stated fails: a prompt of 501 blanks is longer than 500
    characters and is rejected as empty, not as too long. *)
Lemma validate_prompt_blank_501 :
  (500 < length (repeat SP 501))%nat /\
  validate_prompt (repeat SP 501) test_world = rejected EmptyPrompt test_world /\
  validate_prompt (repeat SP 501) test_world <> rejected PromptTooLong test_world.
Proof.
  split; [rewrite repeat_length; lia|].
  assert (E : validate_prompt (repeat SP 501) test_world
              = rejected EmptyPrompt test_world) by (vm_compute; reflexivity).
  split; [exact E|]. rewrite E. intros D.
  apply rejected_inj in D. now elim messages_differ.
Qed.

(** C7.  When [validate_prompt] succeeds on [x] with result [y], it succeeds
    on [y] as well, in any world, and returns [y] again. *)
Theorem validate_prompt_idempotent (x y : pystr) (w w' : world) :
  validate_prompt x w = Ok (Some y) w' ->
  forall w2, validate_prompt y w2 = Ok (Some y) w2.
Proof.
  intros H w2.
  destruct (validate_prompt_cases x w) as [[E R]|[(E & L & R)|(E & L & R)]];
    rewrite R in H; try discriminate.
  injection H as <- <-.
  destruct (normal_form_fixed x E) as (Hs & Hne & Hsp).
  rewrite validate_prompt_ok.
  - now rewrite Hsp.
  - now rewrite Hs.
  - etransitivity; [apply join_split_length|assumption].
Qed.

(** C7 on an example. *)
Lemma validate_prompt_idempotent_witness :
  validate_prompt (py "a red fox") test_world = Ok (Some (py "a red fox")) test_world.
Proof.
  apply (validate_prompt_idempotent (py "  a red 	 fox ") (py "a red fox")
           test_world test_world).
  reflexivity.
Defined.

(** ** RateLimiter *)

Lemma check_rate_limit_step w st :
  limiter_view (session w) = Some st ->
  check_rate_limit w =
    Ok (fst (limiter_step (clock w) st))
       (after_call (fst (limiter_step (clock w) st))
                   (snd (limiter_step (clock w) st)) w).
Proof.
  destruct w as [[d l c] sec f cw dbs ck h tr]. unfold limiter_view. simpl.
  intros Hst.
  destruct l as [l|]; [destruct c as [c|]; [|discriminate]|];
    injection Hst as <-; unfold limiter_step;
    unfold check_rate_limit, bind, get_session, getattr, bind, get_session,
      time_time, ret; simpl;
    destruct (_ >? 60) eqn:E1; simpl.
  all: unfold after_call, set_session, set_trace; simpl.
  all: change (0 + 1) with 1; change (1 <=? 5) with true.
  all: rewrite ?Z.gtb_ltb, ?(Z.leb_antisym 5).
  all: try destruct (5 <? _); simpl; rewrite ?app_nil_r; reflexivity.
Qed.

Lemma limiter_view_after_call b st w :
  limiter_view (session (after_call b st w)) = Some st.
Proof. now destruct st. Qed.

Lemma limiter_step_steady now last count :
  now - last <= 60 ->
  limiter_step now (last, count) = (count + 1 <=? 5, (now, count + 1)).
Proof.
  intros H. unfold limiter_step.
  destruct (now - last >? 60) eqn:E; [|reflexivity].
  apply Z.gtb_lt in E. lia.
Qed.

Lemma limiter_step_reset now last count :
  now - last > 60 -> limiter_step now (last, count) = (true, (now, 1)).
Proof.
  intros H. unfold limiter_step.
  destruct (now - last >? 60) eqn:E; [reflexivity|].
  rewrite Z.gtb_ltb in E. apply Z.ltb_ge in E. lia.
Qed.

Lemma run_calls_cons t ts w st :
  limiter_view (session w) = Some st ->
  run_calls (t :: ts) w =
    match run_calls ts (after_call (fst (limiter_step t st))
                          (snd (limiter_step t st)) (set_clock t w)) with
    | Ok bs w' => Ok (fst (limiter_step t st) :: bs) w'
    | Raise e w' => Raise e w'
    end.
Proof.
  intros H. cbn [run_calls]. unfold bind at 1 2.
  rewrite (check_rate_limit_step (set_clock t w) st H).
  unfold bind, ret. reflexivity.
Qed.

Lemma last_cons_default {A} (t d : A) ts :
  List.last (t :: ts) d = List.last ts t.
Proof.
  destruct ts as [|a ts]; [reflexivity|].
  change (List.last (a :: ts) d = List.last (a :: ts) t).
  revert a. induction ts as [|b ts IH]; intros a; [reflexivity|].
  apply (IH b).
Qed.

Lemma last_cons_default_map {A} (r : A) pre las :
  List.last (map Some (r :: pre)) las = List.last (map Some pre) (Some r).
Proof. apply (last_cons_default (Some r) las (map Some pre)). Qed.

Lemma map_seq_succ {A} (f : nat -> A) n :
  map f (seq 1 (S n)) = f 1%nat :: map (fun k => f (S k)) (seq 1 n).
Proof. cbn [seq map]. f_equal. now rewrite <- seq_shift, map_map. Qed.

(** Calls that follow one another within 60 seconds only count up. *)
Lemma run_calls_steady ts : forall w last count,
  limiter_view (session w) = Some (last, count) ->
  steady last ts ->
  exists w',
    run_calls ts w
      = Ok (map (fun k => count + Z.of_nat k <=? 5) (seq 1 (length ts))) w' /\
    limiter_view (session w')
      = Some (List.last ts last, count + Z.of_nat (length ts)).
Proof.
  induction ts as [|t ts IH]; intros w last count Hv Hs.
  - exists w. split; [reflexivity|]. rewrite Hv. do 2 f_equal. simpl. lia.
  - destruct Hs as [Ht Hs].
    rewrite (run_calls_cons t ts w _ Hv), (limiter_step_steady _ _ _ Ht).
    cbn [fst snd].
    destruct (IH (after_call (count + 1 <=? 5) (t, count + 1) (set_clock t w))
                 t (count + 1) (limiter_view_after_call _ _ _) Hs)
      as (w' & Er & Ev).
    exists w'. rewrite Er. split.
    + cbn [length]. rewrite map_seq_succ. f_equal. f_equal.
      apply map_ext. intros k. f_equal. lia.
    + rewrite Ev. f_equal. f_equal.
      * symmetry. apply last_cons_default.
      * cbn [length]. lia.
Qed.

(** C1, as the code has it.  From a limiter state [(last, count)],
    [check_rate_limit] called at time [now] resets the count to 0 when
    [now - last > 60], then increments it, stores [now] as the time of the
    last request on every call, and allows the call exactly when the count
    is at most 5.  Hence a call more than 60 seconds after the previous call
    is allowed and leaves the count at 1, and in a run of calls after it in
    which no call comes more than 60 seconds after its predecessor, the 6th
    and all later calls are denied. *)
Theorem check_rate_limit_spec (w : world) (last count : Z) :
  limiter_view (session w) = Some (last, count) ->
  (let count' := (if clock w - last >? 60 then 0 else count) + 1 in
   check_rate_limit w
     = Ok (count' <=? 5) (after_call (count' <=? 5) (clock w, count') w)) /\
  (clock w - last > 60 ->
   check_rate_limit w = Ok true (after_call true (clock w, 1) w)) /\
  (forall t ts, t - last > 60 -> steady t ts ->
   exists w',
     run_calls (t :: ts) w
       = Ok (map (fun k => Z.of_nat k <=? 5) (seq 1 (S (length ts)))) w' /\
     limiter_view (session w')
       = Some (List.last ts t, Z.of_nat (S (length ts)))).
Proof.
  intros Hv. split; [|split].
  - apply (check_rate_limit_step w _ Hv).
  - intros Hr. rewrite (check_rate_limit_step w _ Hv).
    now rewrite (limiter_step_reset _ _ _ Hr).
  - intros t ts Hr Hs.
    rewrite (run_calls_cons t ts w _ Hv), (limiter_step_reset _ _ _ Hr).
    cbn [fst snd].
    destruct (run_calls_steady ts (after_call true (t, 1) (set_clock t w))
                t 1 (limiter_view_after_call _ _ _) Hs) as (w' & Er & Ev).
    exists w'. rewrite Er. split.
    + rewrite map_seq_succ. f_equal. f_equal.
      apply map_ext. intros k. f_equal. lia.
    + rewrite Ev. f_equal. f_equal. lia.
Qed.

(** C1 on an example: the first call of a fresh session, at time 1000. *)
Lemma check_rate_limit_spec_witness :
  limiter_view (session test_world) = Some (0, 0) /\
  check_rate_limit test_world = Ok true (after_call true (1000, 1) test_world).
Proof.
  split; [reflexivity|].
  apply (check_rate_limit_spec test_world 0 0); [reflexivity|simpl; lia].
Defined.

(** C1 as stated fails.  A call at time 130 from state [(100, 1)] resets
    nothing and still moves the stored time to 130, where the fixed window
    keeps its start at 100.  And after calls at 100, 120, 130, 140, 150 and
    160, the call at 161, which is 61 seconds after the window opened at
    100, is denied and brings the count to 7, where the fixed window allows
    it and restarts the count at 1. *)
Lemma check_rate_limit_not_fixed_window :
  (let w := after_call true (100, 1) (set_clock 130 test_world) in
   check_rate_limit w = Ok true (after_call true (130, 2) w) /\
   tryAcquire_fixed_window 130 (100, 1) = (true, (100, 2))) /\
  (let o := run_calls [100; 120; 130; 140; 150; 160; 161] test_world in
   result_of o = Some [true; true; true; true; true; false; false] /\
   limiter_view (session (outcome_world o)) = Some (161, 7)) /\
  fixed_window_calls [100; 120; 130; 140; 150; 160; 161] (0, 0)
    = ([true; true; true; true; true; false; true], (161, 1)).
Proof.
  split; [split; vm_compute; reflexivity|]. split; [|reflexivity].
  split; vm_compute; reflexivity.
Qed.

(** ** Reading a blob: [get_image_base64] *)

Lemma startswith_spec s p : startswith s p = true <-> exists r, s = p ++ r.
Proof.
  revert s. induction p as [|a p IH]; intros s.
  - split; [simpl; eauto|]. now destruct s.
  - destruct s as [|c s]; cbn [startswith].
    + split; [discriminate|]. intros [r E]. discriminate.
    + rewrite andb_true_iff, N.eqb_eq, IH. split.
      * intros [-> [r ->]]. eauto.
      * intros [r [= -> ->]]. eauto.
Qed.

Section BlobRoot.
Context `{Platform}.

(** What the guard of [get_image_base64] does reject: a path of which the
    blob root is not even a prefix as a string.  Nothing is read. *)
Lemma get_image_base64_rejects image_path w :
  startswith (abspath (cwd w) image_path)
             (abspath (cwd w) (py "generated_images")) = false ->
  get_image_base64 image_path w = Ok None w.
Proof.
  intros E. unfold get_image_base64, bind, os_path_abspath. now rewrite E.
Qed.

(** A path inside the blob root passes the prefix test. *)
Lemma inside_startswith base p : inside base p -> startswith p base = true.
Proof.
  intros [->|[rel ->]]; apply startswith_spec.
  - exists []. now rewrite app_nil_r.
  - eauto.
Qed.

End BlobRoot.

(** C2 fails on the code.  The reference
    [generated_images_old/secret.png] resolves to
    [/app/generated_images_old/secret.png], which is not inside the blob
    root [/app/generated_images]; the prefix test of [get_image_base64]
    lets it through, and the file is read and returned. *)
Theorem get_image_base64_escapes :
  let image_path := py "generated_images_old/secret.png" in
  let w := world_with_sibling in
  abspath (cwd w) (py "generated_images") = py "/app/generated_images" /\
  abspath (cwd w) image_path = py "/app/generated_images_old/secret.png" /\
  ~ inside (abspath (cwd w) (py "generated_images")) (abspath (cwd w) image_path) /\
  @get_image_base64 test_platform image_path w
    = Ok (Some (@b64encode test_platform [x2a; x2b]))
         (set_trace [EvRead (py "/app/generated_images_old/secret.png")] w).
Proof.
  cbv zeta. split; [reflexivity|]. split; [reflexivity|]. split.
  - intros [E|[rel E]]; vm_compute in E; discriminate E.
  - vm_compute. reflexivity.
Qed.

(** ** GenerationClient *)

Lemma same_stores_refl w : same_stores w w.
Proof. repeat split. Qed.

Lemma same_stores_trans w1 w2 w3 :
  same_stores w1 w2 -> same_stores w2 w3 -> same_stores w1 w3.
Proof. unfold same_stores. intuition congruence. Qed.

Lemma events_of_app {A} w (o : outcome A) evs :
  trace (outcome_world o) = trace w ++ evs -> events_of w o = evs.
Proof. unfold events_of. intros ->. apply drop_app_length. Qed.

(** The error path: the message is shown, [None] is returned. *)
Lemma report_failure_spec r w :
  report_failure r w = Ok None (set_trace (trace w ++ [EvError (failure_message r)]) w).
Proof.
  unfold report_failure, bind, try_except, json_get_error, failure_message.
  destruct (json r); reflexivity.
Qed.

(** Either message ends with the status code of the reply. *)
Lemma failure_message_status r :
  exists text,
    failure_message r = py "Failed to generate image: " ++ text
      ++ py " (Status code: " ++ str_of_Z (status_code r) ++ py ")".
Proof.
  unfold failure_message. destruct (json r) as [| |members].
  - exists (py "API error"). reflexivity.
  - exists (py "API error"). reflexivity.
  - eexists. reflexivity.
Qed.

Section Generation.
Context `{Platform}.

(** In live mode [generate_image] is its [else] branch. *)
Lemma generate_image_live prompt style w :
  live_mode w ->
  generate_image prompt style w = generate_live (secret w) prompt style w.
Proof.
  intros [Ht Hd]. unfold generate_image, bind, secrets_get, get_session, ret.
  rewrite Ht. simpl. rewrite Hd. reflexivity.
Qed.


End Generation.

Section GenerationClaims.
Context `{Platform}.



End GenerationClaims.



(** *** Live mode: the retry loop *)

Section RetryLoop.
Context `{Platform}.
Variables API_URL authorization prompt : pystr.

(** Replies with status 429 each cost one attempt: a post and a sleep. *)
Lemma attempt_loop_retries : forall pre done todo rest las w,
  length pre = length done -> Forall is_429 pre -> http w = pre ++ rest ->
  exists w1,
    attempt_loop API_URL authorization prompt (done ++ todo) las w
      = attempt_loop API_URL authorization prompt todo
          (List.last (map Some pre) las) w1 /\
    trace w1 = trace w ++ retry_events (EvPost API_URL authorization prompt) done /\
    http w1 = rest /\ same_stores w w1.
Proof.
  induction pre as [|r pre IH]; intros done todo rest las w Hl H429 Hh.
  - destruct done; [|discriminate]. exists w. simpl.
    rewrite app_nil_r. repeat split. exact Hh.
  - destruct done as [|a done]; [discriminate|].
    inversion H429 as [|? ? Hr Hpre]; subst. injection Hl as Hl.
    destruct (IH done todo rest (Some r)
                (set_clock (clock w + 2 ^ a)
                   (set_trace ((trace w ++ [EvPost API_URL authorization prompt])
                                 ++ [EvSleep (2 ^ a)])
                      (set_http (pre ++ rest) w))) Hl Hpre eq_refl)
      as (w1 & E1 & Et & Eh & Es).
    exists w1. split; [|split; [|split]].
    + rewrite last_cons_default_map, <- E1. cbn [app attempt_loop].
      unfold bind at 1. unfold requests_post at 1. rewrite Hh.
      red in Hr. cbn [app]. rewrite Hr. reflexivity.
    + rewrite Et. cbn [trace set_clock set_trace retry_events map concat].
      rewrite <- !app_assoc. reflexivity.
    + exact Eh.
    + eapply same_stores_trans; [|exact Es]. repeat split.
Qed.

End RetryLoop.

Section LiveProtocol.
Context `{Platform}.

(** The attempt that gets a reply other than 429 ends the loop. *)
Lemma attempt_loop_final API_URL authorization prompt a todo las r rest w :
  http w = r :: rest -> ~ is_429 r ->
  let w1 := set_http rest
              (set_trace (trace w ++ [EvPost API_URL authorization prompt]) w) in
  attempt_loop API_URL authorization prompt (a :: todo) las w =
    if status_code r =? 200 then
      match Image_open (content r) with
      | Some img => Ok (inl img) w1
      | None => Raise UnidentifiedImageError w1
      end
    else Ok (inr (Some r)) w1.
Proof.
  intros Hh Hr. cbn [attempt_loop]. unfold bind at 1.
  unfold requests_post. rewrite Hh.
  destruct (status_code r =? 200) eqn:E200.
  - unfold bind, image_open. destruct (Image_open (content r)); reflexivity.
  - destruct (status_code r =? 429) eqn:E429; [|reflexivity].
    apply Z.eqb_eq in E429. now elim Hr.
Qed.

(** C3.  In live mode, with [pre] the replies of status 429 that come
    first: when fewer than three come before a reply [r] of another status,
    each of them costs a post and a sleep of [2 ^ attempt] seconds, and [r]
    ends the call without further posts, with the decoded image when its
    status is 200 and on the error path otherwise; when the first three
    replies are 429, three posts and sleeps of 1, 2 and 4 seconds are made
    and the call ends on the error path with the third reply.  On the error
    path the message shown is read from the body, or is the generic one, it
    carries the status code in both cases, and [None] is returned. *)
Theorem generate_image_live_protocol (prompt : pystr) (style : option pystr)
    (w : world) (pre rest : list response) :
  live_mode w -> http w = pre ++ rest -> Forall is_429 pre ->
  let post := the_post w prompt style in
  let o := generate_image prompt style w in
  (forall r rest', rest = r :: rest' -> (length pre < 3)%nat -> ~ is_429 r ->
     let before := retry_events post (take (length pre) [0; 1; 2]) ++ [post] in
     (status_code r = 200 -> forall img, Image_open (content r) = Some img ->
      exists w', o = Ok (Some img) w' /\ trace w' = trace w ++ before /\
                 http w' = rest' /\ same_stores w w') /\
     (status_code r <> 200 -> generation_error r w o before rest')) /\
  (forall r0 r1 r2, pre = [r0; r1; r2] ->
     generation_error r2 w o
       [post; EvSleep 1; post; EvSleep 2; post; EvSleep 4] rest) /\
  (forall r, exists text,
     failure_message r = py "Failed to generate image: " ++ text
       ++ py " (Status code: " ++ str_of_Z (status_code r) ++ py ")").
Proof.
  intros Hlive Hh H429 post o. split; [|split].
  - intros r rest' -> Hlen Hr before.
    assert (Hd : length pre = length (take (length pre) [0; 1; 2])).
    { rewrite length_take. simpl. lia. }
    destruct (attempt_loop_retries
                (py "https://api-inference.huggingface.co/models/" ++ model_id_of style)
                (py "Bearer " ++ default (py "None") (secret w)) prompt
                pre (take (length pre) [0; 1; 2]) (drop (length pre) [0; 1; 2])
                (r :: rest') None w Hd H429 Hh) as (w1 & E1 & Et & Eh & Es).
    rewrite take_drop in E1.
    assert (Htodo : exists a todo, drop (length pre) [0; 1; 2] = a :: todo).
    { destruct pre as [|? [|? [|? ?]]]; simpl in *; eauto; lia. }
    destruct Htodo as (a & todo & Etodo).
    rewrite Etodo, (attempt_loop_final _ _ _ _ _ _ r rest' w1 Eh Hr) in E1.
    subst o. rewrite (generate_image_live _ _ _ Hlive).
    unfold generate_live, bind. rewrite E1. split.
    + intros E200 img Himg. apply Z.eqb_eq in E200. rewrite E200, Himg.
      eexists. split; [reflexivity|]. split; [|split].
      * cbn [trace set_http set_trace]. rewrite Et. subst before.
        now rewrite <- app_assoc.
      * reflexivity.
      * eapply same_stores_trans; [exact Es|]. repeat split.
    + intros N200. apply Z.eqb_neq in N200. rewrite N200.
      rewrite report_failure_spec. eexists. split; [reflexivity|].
      split; [|split].
      * cbn [trace set_http set_trace]. rewrite Et. subst before.
        now rewrite <- !app_assoc.
      * reflexivity.
      * eapply same_stores_trans; [exact Es|]. repeat split.
  - intros r0 r1 r2 ->.
    destruct (attempt_loop_retries
                (py "https://api-inference.huggingface.co/models/" ++ model_id_of style)
                (py "Bearer " ++ default (py "None") (secret w)) prompt
                [r0; r1; r2] [0; 1; 2] [] rest None w eq_refl H429 Hh)
      as (w1 & E1 & Et & Eh & Es).
    subst o. rewrite (generate_image_live _ _ _ Hlive).
    unfold generate_live, bind. cbn [app] in E1. rewrite E1.
    cbn [attempt_loop map List.last]. unfold ret.
    rewrite report_failure_spec. eexists. split; [reflexivity|].
    split; [|split].
    + cbn [trace set_trace]. rewrite Et. now rewrite <- app_assoc.
    + exact Eh.
    + eapply same_stores_trans; [exact Es|]. repeat split.
  - apply failure_message_status.
Qed.

End LiveProtocol.

(** C3 on an example: the endpoint answers 429, 429 and then 200. *)
Lemma generate_image_live_protocol_witness :
  let w := live_world [reply 429 [] NotJson; reply 429 [] NotJson;
                       reply 200 [x89; x50] NotJson] in
  let post := the_post w (py "a red fox") (Some (py "cartoon")) in
  live_mode w /\
  exists w',
    @generate_image test_platform (py "a red fox") (Some (py "cartoon")) w
      = Ok (Some {| mode := py "RGB"; size := (512, 512);
                    pixels := Decoded [x89; x50] |}) w' /\
    trace w' = [post; EvSleep 1; post; EvSleep 2; post].
Proof.
  cbv zeta. split; [split; reflexivity|].
  destruct (@generate_image_live_protocol test_platform
              (py "a red fox") (Some (py "cartoon"))
              (live_world [reply 429 [] NotJson; reply 429 [] NotJson;
                           reply 200 [x89; x50] NotJson])
              [reply 429 [] NotJson; reply 429 [] NotJson]
              [reply 200 [x89; x50] NotJson])
    as (Hk & _ & _).
  - split; reflexivity.
  - reflexivity.
  - repeat constructor.
  - destruct (Hk (reply 200 [x89; x50] NotJson) [] eq_refl) as (H200 & _).
    + simpl. lia.
    + unfold is_429. simpl. lia.
    + destruct (H200 eq_refl _ eq_refl) as (w' & E & Et & _).
      exists w'. split; [exact E|exact Et].
Defined.

(** ** RecordStore *)

Lemma max_rowid_ge rows r : In r rows -> id r <= max_rowid rows.
Proof.
  unfold max_rowid. induction rows as [|a rows IH]; simpl; [tauto|].
  intros [->|Hin]; [lia|]. specialize (IH Hin). lia.
Qed.

Lemma find_none_intro {A} (f : A -> bool) l :
  (forall x, In x l -> f x = false) -> find f l = None.
Proof.
  induction l as [|a l IH]; intros Hf; simpl; [reflexivity|].
  rewrite (Hf a) by now left. apply IH. intros x Hx. apply Hf. now right.
Qed.

Lemma find_none_above rows n :
  max_rowid rows < n ->
  find (fun r => bool_decide (id r = n)) rows = None.
Proof.
  intros Hn. apply find_none_intro. intros r Hr.
  apply bool_decide_eq_false. pose proof (max_rowid_ge rows r Hr). lia.
Qed.

Lemma find_app_none {A} (f : A -> bool) l1 l2 :
  find f l1 = None -> find f (l1 ++ l2) = find f l2.
Proof.
  induction l1 as [|a l1 IH]; simpl; [reflexivity|].
  destruct (f a); [discriminate|exact IH].
Qed.

(** After a deletion the table has no row of that id. *)
Lemma get_after_delete rows seq n :
  get {| prompts := filter (fun r => id r <> n) rows; sqlite_sequence := seq |} n
    = None.
Proof.
  unfold get. apply find_none_intro. intros r Hr. simpl in Hr.
  apply list_elem_of_In, list_elem_of_filter in Hr as [Hr _].
  now apply bool_decide_eq_false.
Qed.

Section Store.
Context `{Platform}.

(** C4.  [save_image] rejects an image of which either dimension exceeds
    4096 with the message ImageTooLarge and the result [(None, None)],
    leaving files and table as they were.  Otherwise it writes the blob
    first: when that write succeeds (the directory exists and the name is
    not that of a directory) the metadata row is inserted after it, with a
    fresh id, and the file name and that id are returned; when the write
    fails, the exception leaves the call before anything is inserted. *)
Theorem save_image_spec (img : image) (prompt expected_style : pystr) (w : world) :
  let filename := py "generated_images/image_" ++ strftime (clock w) ++ py ".png" in
  let p := abspath (cwd w) filename in
  (fst (size img) > 4096 \/ snd (size img) > 4096 ->
   save_image img prompt expected_style w
     = Ok (None, None) (set_trace (trace w ++ [EvError ImageTooLarge]) w)) /\
  (fst (size img) <= 4096 -> snd (size img) <= 4096 ->
   fs w !! dirname p = Some Dir -> fs w !! p <> Some Dir ->
   exists rowid w',
     save_image img prompt expected_style w = Ok (Some filename, Some rowid) w' /\
     let r := {| id := rowid; prompt := prompt; expected_style := expected_style;
                 filename := filename; created_at := clock w;
                 score := None; feedback := None |} in
     fs w' = <[p := File (png_encode img)]> (fs w) /\
     prompts (db w') = prompts (db w) ++ [r] /\
     get (db w) rowid = None /\ get (db w') rowid = Some r /\
     trace w' = trace w ++ [EvWrite p; EvInsert r]) /\
  (fst (size img) <= 4096 -> snd (size img) <= 4096 ->
   ~ (fs w !! dirname p = Some Dir /\ fs w !! p <> Some Dir) ->
   exists e,
     save_image img prompt expected_style w = Raise e w).
Proof.
  intros filename p. split; [|split].
  - intros Hbig. unfold save_image.
    assert (E : (fst (size img) >? 4096) || (snd (size img) >? 4096) = true).
    { apply orb_true_iff. rewrite !Z.gtb_ltb, !Z.ltb_lt. lia. }
    rewrite E. reflexivity.
  - intros Hw Hh Hdir Hp. unfold save_image.
    assert (E : (fst (size img) >? 4096) || (snd (size img) >? 4096) = false).
    { apply orb_false_iff. rewrite !Z.gtb_ltb, !Z.ltb_ge. lia. }
    rewrite E. unfold bind at 1. unfold datetime_now at 1.
    unfold bind at 1. unfold image_save, write_file.
    fold filename. fold p. rewrite Hdir.
    set (rowid := Z.max (sqlite_sequence (db w)) (max_rowid (prompts (db w))) + 1).
    assert (Hfresh : get (db w) rowid = None).
    { apply find_none_above. unfold rowid. lia. }
    exists rowid.
    destruct (fs w !! p) as [[data|]|] eqn:Ep; [|now elim Hp|].
    all: eexists; split; [reflexivity|]; cbn -[abspath filename]; fold rowid.
    all: refine (conj eq_refl (conj eq_refl (conj Hfresh (conj _ _)))).
    all: try (now rewrite <- app_assoc).
    all: rewrite find_app_none by exact Hfresh; simpl.
    all: now rewrite bool_decide_eq_true_2.
  - intros Hw Hh Hno. unfold save_image.
    assert (E : (fst (size img) >? 4096) || (snd (size img) >? 4096) = false).
    { apply orb_false_iff. rewrite !Z.gtb_ltb, !Z.ltb_ge. lia. }
    rewrite E. unfold bind at 1. unfold datetime_now at 1.
    unfold bind at 1. unfold image_save, write_file.
    fold filename. fold p.
    destruct (fs w !! dirname p) as [[d|]|] eqn:Ed; try (eexists; reflexivity).
    destruct (fs w !! p) as [[d|]|] eqn:Ep; try (eexists; reflexivity).
    all: elim Hno; split; [reflexivity|congruence].
Qed.

End Store.

(** C4 on an example: the placeholder is saved in the test world. *)
Lemma save_image_spec_witness :
  exists rowid w',
    @save_image test_platform placeholder (py "a red fox") (py "cartoon") test_world
      = Ok (Some (py "generated_images/image_20240101_120000.png"), Some rowid) w'.
Proof.
  destruct (@save_image_spec test_platform placeholder (py "a red fox")
              (py "cartoon") test_world) as (_ & Hok & _).
  destruct Hok as (rowid & w' & E & _).
  - simpl. lia.
  - simpl. lia.
  - vm_compute. reflexivity.
  - vm_compute. discriminate.
  - exists rowid, w'. exact E.
Defined.

Lemma exists_some {A} (x : A) : bool_decide (is_Some (Some x)) = true.
Proof. apply bool_decide_eq_true_2. eauto. Qed.

Lemma exists_none {A} : bool_decide (is_Some (@None A)) = false.
Proof. apply bool_decide_eq_false_2. intros [x E]. discriminate. Qed.

Section Delete.
Context `{Platform}.

(** C8.  [delete_image] removes the blob first, doing nothing to the files
    when there is none under that name, and then deletes the metadata row.
    When the name is that of a directory the removal raises and the row
    stays.  After a call that completes, the table has no row of that id and
    the blob cannot be read any more: the name does not exist, [load_image]
    returns [None] and opening the file fails. *)
Theorem delete_image_spec (prompt_id : Z) (filename : pystr) (w : world) :
  let p := abspath (cwd w) filename in
  let db' := {| prompts := filter (fun r => id r <> prompt_id) (prompts (db w));
                sqlite_sequence := sqlite_sequence (db w) |} in
  (fs w !! p = None ->
   delete_image prompt_id filename w
     = Ok tt (set_db db' (set_trace (trace w ++ [EvDelete prompt_id]) w))) /\
  (forall data, fs w !! p = Some (File data) ->
   delete_image prompt_id filename w
     = Ok tt (set_db db'
                (set_trace ((trace w ++ [EvRemove p]) ++ [EvDelete prompt_id])
                   (set_fs (delete p (fs w)) w)))) /\
  (fs w !! p = Some Dir ->
   delete_image prompt_id filename w = Raise IsADirectoryError w) /\
  (forall w', delete_image prompt_id filename w = Ok tt w' ->
   get (db w') prompt_id = None /\
   fs w' !! p = None /\
   os_path_exists filename w' = Ok false w' /\
   load_image filename w' = Ok None w' /\
   read_file filename w' = Raise FileNotFoundError w').
Proof.
  intros p db'.
  assert (Hnone : fs w !! p = None ->
    delete_image prompt_id filename w
      = Ok tt (set_db db' (set_trace (trace w ++ [EvDelete prompt_id]) w))).
  { intros E. unfold delete_image, bind, os_path_exists. fold p.
    rewrite E, exists_none. reflexivity. }
  assert (Hfile : forall data, fs w !! p = Some (File data) ->
    delete_image prompt_id filename w
      = Ok tt (set_db db'
                 (set_trace ((trace w ++ [EvRemove p]) ++ [EvDelete prompt_id])
                    (set_fs (delete p (fs w)) w)))).
  { intros data E. unfold delete_image, bind, os_path_exists, os_remove.
    fold p. rewrite E, exists_some. cbn [fs cwd set_fs set_trace]. fold p.
    rewrite E. reflexivity. }
  assert (Hdir : fs w !! p = Some Dir ->
    delete_image prompt_id filename w = Raise IsADirectoryError w).
  { intros E. unfold delete_image, bind, os_path_exists, os_remove.
    fold p. rewrite E, exists_some. cbn [fs cwd set_fs set_trace]. fold p.
    rewrite E. reflexivity. }
  split; [exact Hnone|]. split; [exact Hfile|]. split; [exact Hdir|].
  intros w' Hdel.
  assert (Hw' : get (db w') prompt_id = None /\ fs w' !! p = None /\ cwd w' = cwd w).
  { destruct (fs w !! p) as [[data|]|] eqn:E.
    - rewrite (Hfile data eq_refl) in Hdel. injection Hdel as <-.
      split; [apply get_after_delete|]. split; [apply lookup_delete_eq|reflexivity].
    - rewrite (Hdir eq_refl) in Hdel. discriminate.
    - rewrite (Hnone eq_refl) in Hdel. injection Hdel as <-.
      split; [apply get_after_delete|]. split; [exact E|reflexivity]. }
  destruct Hw' as (Hg & Hf & Hc).
  split; [exact Hg|]. split; [exact Hf|].
  unfold load_image, bind, os_path_exists, read_file. rewrite Hc. fold p.
  rewrite Hf, exists_none. repeat split.
Qed.

End Delete.

(** C8 on an example: a saved image is deleted again. *)
Lemma delete_image_spec_witness :
  let w := set_db {| prompts := [{| id := 1; prompt := py "a red fox";
                                    expected_style := py "cartoon";
                                    filename := py "generated_images/image_1.png";
                                    created_at := 1000; score := None;
                                    feedback := None |}];
                     sqlite_sequence := 1 |}
             (set_fs (<[py "/app/generated_images/image_1.png" := File [x89]]>
                        (fs test_world)) test_world) in
  get (db w) 1 <> None /\
  exists w',
    @delete_image 1 (py "generated_images/image_1.png") w = Ok tt w' /\
    get (db w') 1 = None /\
    @load_image test_platform (py "generated_images/image_1.png") w' = Ok None w'.
Proof.
  cbv zeta. split; [vm_compute; discriminate|].
  eexists. split; [vm_compute; reflexivity|].
  match goal with |- get (db ?w1) _ = _ /\ _ =>
    destruct (@delete_image_spec test_platform 1 (py "generated_images/image_1.png")
                (set_db {| prompts := [{| id := 1; prompt := py "a red fox";
                                          expected_style := py "cartoon";
                                          filename := py "generated_images/image_1.png";
                                          created_at := 1000; score := None;
                                          feedback := None |}];
                           sqlite_sequence := 1 |}
                   (set_fs (<[py "/app/generated_images/image_1.png" := File [x89]]>
                              (fs test_world)) test_world)))
      as (_ & _ & _ & Hafter);
    destruct (Hafter w1) as (Hg & _ & _ & Hl & _)
  end.
  - vm_compute. reflexivity.
  - split; [exact Hg|exact Hl].
Defined.

(** ** EvaluationAggregator *)

Lemma py_sum_foldr l : py_sum l = foldr Z.add 0 l.
Proof.
  unfold py_sum.
  assert (G : forall a, fold_left Z.add l a = a + foldr Z.add 0 l).
  { induction l as [|x l IH]; intros a; simpl; [lia|]. rewrite IH. lia. }
  rewrite G. lia.
Qed.

Lemma true_div_mean l : true_div (py_sum l) (length l) == mean l.
Proof. unfold true_div, mean. rewrite Qred_correct, py_sum_foldr. reflexivity. Qed.

(** The scores of the evaluated rows are the scores that are present. *)
Lemma scores_evaluated prompts :
  map score_of (evaluated_prompts prompts) = scores prompts.
Proof.
  unfold evaluated_prompts, scores.
  induction prompts as [|p ps IH]; [reflexivity|].
  rewrite filter_cons. cbn [omap list_omap].
  destruct (score p) as [s|] eqn:E.
  - rewrite decide_True by congruence. cbn [map]. unfold score_of at 1.
    rewrite E. simpl. now rewrite IH.
  - rewrite decide_False by (intros D; now apply D). exact IH.
Qed.

Lemma scores_of_style_evaluated style prompts :
  map score_of (filter (fun p => expected_style p = style) (evaluated_prompts prompts))
  = scores_of_style style prompts.
Proof.
  unfold evaluated_prompts, scores_of_style.
  induction prompts as [|p ps IH]; [reflexivity|].
  rewrite !(filter_cons _ p).
  destruct (decide (expected_style p = style)) as [Es|Es];
    destruct (score p) as [s|] eqn:E.
  - rewrite decide_True by congruence. rewrite filter_cons, decide_True by exact Es.
    cbn [map omap list_omap]. unfold score_of at 1. rewrite E. simpl. now rewrite IH.
  - rewrite decide_False by (intros D; now apply D).
    cbn [omap list_omap]. rewrite E. exact IH.
  - rewrite decide_True by congruence. rewrite filter_cons, decide_False by exact Es.
    exact IH.
  - rewrite decide_False by (intros D; now apply D). exact IH.
Qed.

Lemma styles_step_lookup styles p style :
  styles_step styles p !! style =
    if decide (expected_style p = style)
    then Some (default [] (styles !! style) ++ [score_of p])
    else styles !! style.
Proof.
  unfold styles_step. destruct (decide (expected_style p = style)) as [<-|Hne].
  - rewrite lookup_insert_eq. destruct (styles !! expected_style p) eqn:E.
    + now rewrite E.
    + now rewrite lookup_insert_eq.
  - rewrite lookup_insert_ne by exact Hne.
    destruct (styles !! expected_style p); [reflexivity|].
    now rewrite lookup_insert_ne.
Qed.

(** The loop adds to each key the scores of the rows of that style, in
    order, and creates no key without a score. *)
Lemma styles_fold_lookup evaluated style : forall styles,
  fold_left styles_step evaluated styles !! style =
    match map score_of (filter (fun p => expected_style p = style) evaluated) with
    | [] => styles !! style
    | l => Some (default [] (styles !! style) ++ l)
    end.
Proof.
  induction evaluated as [|p ps IH]; intros styles; [reflexivity|].
  cbn [fold_left]. rewrite IH, styles_step_lookup, filter_cons.
  destruct (decide (expected_style p = style)) as [E|E].
  - cbn [map default].
    destruct (map score_of (filter (fun p0 => expected_style p0 = style) ps)).
    + reflexivity.
    + unfold Datatypes.id. now rewrite <- app_assoc.
  - reflexivity.
Qed.

Lemma styles_of_lookup evaluated style :
  styles_of evaluated !! style =
    match map score_of (filter (fun p => expected_style p = style) evaluated) with
    | [] => None
    | l => Some l
    end.
Proof.
  unfold styles_of.
  rewrite styles_fold_lookup, lookup_empty. reflexivity.
Qed.

(** C9.  Over any list of records: when no score is present there is no
    report; otherwise the overall average is the arithmetic mean of the
    scores that are present, and the averages by style hold, for each style
    that has a record with a score, the mean of the scores of the records of
    that style, and nothing for any other style.  The records (realistic, 6),
    (realistic, 8), (cartoon, 10) give 8 overall, 7 for realistic and 10 for
    cartoon. *)
Theorem evaluation_report_spec (prompts : list row) :
  (scores prompts = [] -> evaluation_report prompts = None) /\
  (scores prompts <> [] ->
   exists avg by_style,
     evaluation_report prompts = Some (avg, by_style) /\
     overallAverage prompts = Some avg /\
     averageByStyle prompts = Some by_style /\
     avg == mean (scores prompts) /\
     forall style,
       (scores_of_style style prompts = [] -> by_style !! style = None) /\
       (scores_of_style style prompts <> [] ->
        exists m, by_style !! style = Some m /\
                  m == mean (scores_of_style style prompts))) /\
  (overallAverage example_records = Some (8 # 1) /\
   averageByStyle example_records
     = Some {[ py "realistic" := 7 # 1; py "cartoon" := 10 # 1 ]}).
Proof.
  split; [|split].
  - intros E. unfold evaluation_report.
    rewrite <- scores_evaluated in E. apply map_eq_nil in E.
    now rewrite E.
  - intros Hne. unfold overallAverage, averageByStyle, evaluation_report.
    rewrite <- scores_evaluated in Hne.
    rewrite bool_decide_eq_false_2 by (intros E; apply Hne; now rewrite E).
    eexists _, _. split; [reflexivity|]. split; [reflexivity|].
    split; [reflexivity|]. split.
    + unfold avg_score. rewrite <- (length_map score_of), true_div_mean.
      now rewrite scores_evaluated.
    + intros style. unfold style_averages.
      rewrite lookup_fmap, styles_of_lookup, scores_of_style_evaluated.
      destruct (scores_of_style style prompts) as [|s l]; split; try congruence.
      * reflexivity.
      * intros _. eexists. split; [reflexivity|]. apply true_div_mean.
  - split; vm_compute; reflexivity.
Qed.

(** C9 on an example with a record that has no score. *)
Lemma evaluation_report_spec_witness :
  let rs := [record (py "cyberpunk") None; record (py "cartoon") (Some 9);
             record (py "cartoon") (Some 4)] in
  scores rs = [9; 4] /\
  exists avg by_style,
    evaluation_report rs = Some (avg, by_style) /\ avg == 13 # 2 /\
    by_style !! py "cyberpunk" = None /\
    exists m, by_style !! py "cartoon" = Some m /\ m == 13 # 2.
Proof.
  cbv zeta. split; [reflexivity|].
  destruct (evaluation_report_spec
              [record (py "cyberpunk") None; record (py "cartoon") (Some 9);
               record (py "cartoon") (Some 4)]) as (_ & Hrep & _).
  destruct Hrep as (avg & by_style & E & _ & _ & Havg & Hstyle); [discriminate|].
  exists avg, by_style. split; [exact E|]. split; [exact Havg|].
  split.
  - apply (Hstyle (py "cyberpunk")). reflexivity.
  - destruct (Hstyle (py "cartoon")) as (_ & Hm).
    destruct Hm as (m & Em & Hm); [discriminate|].
    exists m. split; [exact Em|exact Hm].
Defined.

(** * Further properties *)

(** ** GenerationClient: every call *)

Lemma posts_in_app evs1 evs2 : posts_in (evs1 ++ evs2) = (posts_in evs1 + posts_in evs2)%nat.
Proof.
  induction evs1 as [|e evs1 IH]; [reflexivity|].
  destruct e; simpl; rewrite IH; reflexivity.
Qed.

Lemma slept_in_app evs1 evs2 : slept_in (evs1 ++ evs2) = slept_in evs1 + slept_in evs2.
Proof.
  induction evs1 as [|e evs1 IH]; [reflexivity|].
  destruct e; simpl; rewrite IH; lia.
Qed.

(** Closes the cases of a single post. *)
Ltac one_post :=
  refine (conj eq_refl (conj _ (conj _ (conj _ _))));
  [ repeat split
  | constructor; [now left|constructor]
  | cbn; lia
  | cbn; lia ].

Section LoopEvents.
Context `{Platform}.
Variables API_URL authorization prompt : pystr.

(** What the retry loop does to the world, whatever the endpoint replies:
    it posts the same request at most once per attempt, sleeps at most
    [2 ^ attempt] seconds after each, and leaves the stores alone. *)
Lemma attempt_loop_events attempts : forall las w o,
  o = attempt_loop API_URL authorization prompt attempts las w ->
  exists evs,
    trace (outcome_world o) = trace w ++ evs /\
    same_stores w (outcome_world o) /\
    Forall (fun e => e = EvPost API_URL authorization prompt \/
                     exists secs, e = EvSleep secs) evs /\
    (posts_in evs <= length attempts)%nat /\
    slept_in evs <= fold_right Z.add 0 (map (Z.pow 2) attempts).
Proof.
  induction attempts as [|a attempts IH]; intros las w o Ho.
  - exists []. subst o. simpl. rewrite app_nil_r.
    refine (conj eq_refl (conj _ (conj _ (conj _ _))));
      [repeat split|constructor|simpl; lia|simpl; lia].
  - assert (Hpow : 0 <= fold_right Z.add 0 (map (Z.pow 2) attempts)).
    { clear. induction attempts as [|b l IHl]; simpl; [lia|].
      pose proof (Z.pow_nonneg 2 b). lia. }
    pose proof (Z.pow_nonneg 2 a ltac:(lia)) as Ha.
    cbn [attempt_loop] in Ho. unfold bind at 1 in Ho.
    unfold requests_post at 1 in Ho.
    destruct (http w) as [|r rest] eqn:Eh.
    { exists [EvPost API_URL authorization prompt]. subst o. cbn. one_post. }
    destruct (status_code r =? 200) eqn:E200.
    { exists [EvPost API_URL authorization prompt].
      unfold bind, image_open in Ho.
      destruct (Image_open (content r)); subst o; cbn; one_post. }
    destruct (status_code r =? 429) eqn:E429.
    + unfold bind at 1 in Ho. unfold time_sleep, emit, bind in Ho.
      cbn [trace set_http set_trace] in Ho.
      destruct (IH _ _ o Ho) as (evs & Et & Es & Hf & Hp & Hs).
      exists (EvPost API_URL authorization prompt :: EvSleep (2 ^ a) :: evs).
      split; [|split; [|split; [|split]]].
      * rewrite Et. cbn [trace set_clock set_trace set_http].
        rewrite <- !app_assoc. reflexivity.
      * eapply same_stores_trans; [|exact Es]. repeat split.
      * constructor; [now left|]. constructor; [right; eauto|exact Hf].
      * cbn. lia.
      * cbn. lia.
    + exists [EvPost API_URL authorization prompt]. subst o. cbn. one_post.
Qed.

(** Leaving the loop without an image: the reply kept is not a 200. *)
Lemma attempt_loop_break attempts : forall las w x w',
  attempt_loop API_URL authorization prompt attempts las w = Ok (inr x) w' ->
  x = las \/ exists r, x = Some r /\ status_code r <> 200 /\ In r (http w).
Proof.
  induction attempts as [|a attempts IH]; intros las w x w'.
  - cbn. unfold ret. intros [= <- _]. now left.
  - cbn [attempt_loop]. unfold bind at 1. unfold requests_post at 1.
    destruct (http w) as [|r rest] eqn:Eh; [discriminate|].
    destruct (status_code r =? 200) eqn:E200.
    { unfold bind, image_open. destruct (Image_open (content r)); discriminate. }
    apply Z.eqb_neq in E200.
    destruct (status_code r =? 429) eqn:E429.
    + unfold bind at 1. unfold time_sleep, emit, bind. intros Hl.
      apply IH in Hl as [->|(r' & -> & Hr' & Hin)]; right.
      * exists r. repeat split; [assumption|now left].
      * exists r'. repeat split; [assumption|]. right. exact Hin.
    + unfold ret. intros [= <- _]. right. exists r.
      repeat split; [assumption|now left].
Qed.

End LoopEvents.

Section EveryCall.
Context `{Platform}.

(** The events of a call of [generate_image], in any mode and whatever the
    endpoint replies. *)
Lemma generate_image_events prompt style w o :
  o = generate_image prompt style w ->
  exists evs,
    trace (outcome_world o) = trace w ++ evs /\
    (fs (outcome_world o) = fs w /\ db (outcome_world o) = db w) /\
    Forall (generation_event w prompt style) evs /\
    (posts_in evs <= 3)%nat /\ slept_in evs <= 7.
Proof.
  intros Ho. unfold generate_image, bind, secrets_get, get_session, ret in Ho.
  destruct (truthy (default [] (secret w))) eqn:Ht; simpl in Ho.
  - destruct (demo_mode (session w)) as [[|]|] eqn:Hd; simpl in Ho.
    + exists [EvSleep 3]. subst o. cbn.
      refine (conj eq_refl (conj (conj eq_refl eq_refl) (conj _ (conj _ _))));
        [|lia|lia].
      constructor; [|constructor]. right; left; eauto.
    + unfold generate_live, bind in Ho.
      destruct (attempt_loop _ _ _ _ _ w) as [[img|[r|]] w1|e w1] eqn:El.
      all: destruct (attempt_loop_events _ _ _ _ _ _ _ (eq_sym El))
          as (evs & Et & (_ & _ & Ef & _ & Edb) & Hf & Hp & Hs).
      all: cbn [outcome_world] in Et, Ef, Edb.
      all: change (fold_right Z.add 0 (map (Z.pow 2) [0; 1; 2])) with 7 in Hs.
      all: cbn [length] in Hp.
      all: assert (Hg : Forall (generation_event w prompt style) evs)
        by (eapply Forall_impl; [exact Hf|]; intros ev [->|Hsl];
            [now left|right; now left]).
      * exists evs. subst o. cbn. repeat split; assumption.
      * exists (evs ++ [EvError (failure_message r)]). subst o.
        rewrite report_failure_spec. cbn.
        rewrite Et, <- app_assoc, posts_in_app, slept_in_app. cbn.
        refine (conj eq_refl (conj (conj Ef Edb) (conj _ (conj _ _)))); [|lia|lia].
        apply Forall_app. split; [exact Hg|].
        constructor; [|constructor]. right; right; eauto.
      * exists evs. subst o. cbn. repeat split; assumption.
      * exists evs. subst o. cbn. repeat split; assumption.
    + exists [EvSleep 3]. subst o. cbn.
      refine (conj eq_refl (conj (conj eq_refl eq_refl) (conj _ (conj _ _))));
        [|lia|lia].
      constructor; [|constructor]. right; left; eauto.
  - exists [EvError (py "Hugging Face API token not configured. Using demo mode.");
            EvSleep 3].
    subst o. cbn. rewrite <- app_assoc.
    refine (conj eq_refl (conj (conj eq_refl eq_refl) (conj _ (conj _ _))));
      [|lia|lia].
    constructor; [right; right; eauto|].
    constructor; [right; left; eauto|constructor].
Qed.

(** X1.  Whatever the mode and whatever the endpoint replies, one call of
    [generate_image] posts at most 3 requests and sleeps at most 7 seconds
    in all. *)
Theorem generate_image_bounded (prompt : pystr) (style : option pystr) (w : world) :
  (posts_in (events_of w (generate_image prompt style w)) <= 3)%nat /\
  slept_in (events_of w (generate_image prompt style w)) <= 7.
Proof.
  destruct (generate_image_events prompt style w _ eq_refl)
    as (evs & Et & _ & _ & Hp & Hs).
  now rewrite (events_of_app w _ evs Et).
Qed.

(** X2.  A call of [generate_image] touches neither the files nor the
    table, and every event it adds is a sleep, an error message or one and
    the same request: a post to the model the style routes to, with the
    configured token and the prompt as input. *)
Theorem generate_image_requests (prompt : pystr) (style : option pystr) (w : world) :
  let o := generate_image prompt style w in
  fs (outcome_world o) = fs w /\ db (outcome_world o) = db w /\
  Forall (generation_event w prompt style) (events_of w o).
Proof.
  destruct (generate_image_events prompt style w _ eq_refl)
    as (evs & Et & (Ef & Edb) & Hf & _).
  cbv zeta. now rewrite (events_of_app w _ evs Et).
Qed.

(** X3.  A call of [generate_image] that returns [None] has shown, as its
    last event, the failure message of a reply whose status is not 200. *)
Theorem generate_image_none (prompt : pystr) (style : option pystr) (w w' : world) :
  generate_image prompt style w = Ok None w' ->
  exists r evs,
    In r (http w) /\ status_code r <> 200 /\
    trace w' = trace w ++ evs ++ [EvError (failure_message r)].
Proof.
  intros Ho. unfold generate_image, bind, secrets_get, get_session, ret in Ho.
  destruct (truthy (default [] (secret w))) eqn:Ht; simpl in Ho;
    [|discriminate].
  destruct (demo_mode (session w)) as [[|]|] eqn:Hd; simpl in Ho;
    try discriminate.
  unfold generate_live, bind in Ho.
  destruct (attempt_loop _ _ _ _ _ w) as [[img|[r|]] w1|e w1] eqn:El;
    try discriminate.
  rewrite report_failure_spec in Ho. injection Ho as <-.
  destruct (attempt_loop_events _ _ _ _ _ _ _ (eq_sym El)) as (evs & Et & _).
  destruct (attempt_loop_break _ _ _ _ _ _ _ _ El) as [D|(r' & [= <-] & Hr & Hin)];
    [discriminate|].
  exists r, evs. cbn in *. rewrite Et, <- app_assoc. repeat split; assumption.
Qed.

End EveryCall.

(** X3 on an example: the endpoint answers 503 with an error text. *)
Lemma generate_image_none_witness :
  let w := live_world [reply 503 [] (JsonObject [(py "error", py "overloaded")])] in
  exists r evs,
    In r (http w) /\ status_code r <> 200 /\
    exists w', @generate_image test_platform (py "a red fox") None w = Ok None w' /\
               trace w' = trace w ++ evs ++ [EvError (failure_message r)].
Proof.
  cbv zeta.
  destruct (@generate_image_none test_platform (py "a red fox") None
              (live_world [reply 503 [] (JsonObject [(py "error", py "overloaded")])])
              (outcome_world (@generate_image test_platform (py "a red fox") None
                 (live_world [reply 503 [] (JsonObject [(py "error", py "overloaded")])]))))
    as (r & evs & Hin & Hr & Et).
  - vm_compute. reflexivity.
  - exists r, evs. split; [exact Hin|]. split; [exact Hr|].
    eexists. split; [vm_compute; reflexivity|exact Et].
Defined.

Section LiveEdges.
Context `{Platform}.

(** X4.  In live mode a reply of status 200 whose body PIL cannot identify
    makes [generate_image] raise UnidentifiedImageError: no image and no
    [None] is returned and no error message is shown. *)
Theorem generate_image_undecodable (prompt : pystr) (style : option pystr)
    (w : world) (pre : list response) (r : response) (rest : list response) :
  live_mode w -> http w = pre ++ r :: rest -> Forall is_429 pre ->
  (length pre < 3)%nat ->
  status_code r = 200 -> Image_open (content r) = None ->
  exists w',
    generate_image prompt style w = Raise UnidentifiedImageError w' /\
    trace w' = trace w
      ++ retry_events (the_post w prompt style) (take (length pre) [0; 1; 2])
      ++ [the_post w prompt style].
Proof.
  intros Hlive Hh H429 Hlen E200 Himg.
  assert (Hd : length pre = length (take (length pre) [0; 1; 2])).
  { rewrite length_take. simpl. lia. }
  destruct (attempt_loop_retries
              (py "https://api-inference.huggingface.co/models/" ++ model_id_of style)
              (py "Bearer " ++ default (py "None") (secret w)) prompt
              pre (take (length pre) [0; 1; 2]) (drop (length pre) [0; 1; 2])
              (r :: rest) None w Hd H429 Hh) as (w1 & E1 & Et & Eh & Es).
  rewrite take_drop in E1.
  assert (Htodo : exists a todo, drop (length pre) [0; 1; 2] = a :: todo).
  { destruct pre as [|? [|? [|? ?]]]; simpl in *; eauto; lia. }
  destruct Htodo as (a & todo & Etodo).
  assert (Hr : ~ is_429 r) by (unfold is_429; lia).
  rewrite Etodo, (attempt_loop_final _ _ _ _ _ _ r rest w1 Eh Hr) in E1.
  apply Z.eqb_eq in E200. rewrite E200, Himg in E1.
  rewrite (generate_image_live _ _ _ Hlive).
  unfold generate_live, bind. rewrite E1.
  eexists. split; [reflexivity|].
  cbn [trace set_http set_trace]. rewrite Et. now rewrite <- app_assoc.
Qed.


End LiveEdges.

(** X4 on an example: the test platform cannot identify an empty body. *)
Lemma generate_image_undecodable_witness :
  let w := live_world [reply 429 [] NotJson; reply 200 [] NotJson] in
  exists w',
    @generate_image test_platform (py "a red fox") None w
      = Raise UnidentifiedImageError w' /\
    trace w' = [the_post w (py "a red fox") None; EvSleep 1;
                the_post w (py "a red fox") None].
Proof.
  cbv zeta.
  apply (@generate_image_undecodable test_platform (py "a red fox") None
           (live_world [reply 429 [] NotJson; reply 200 [] NotJson])
           [reply 429 [] NotJson] (reply 200 [] NotJson) []).
  - split; reflexivity.
  - reflexivity.
  - repeat constructor.
  - simpl. lia.
  - reflexivity.
  - reflexivity.
Defined.


(** ** PromptValidator: the normal form *)

Lemma spaced_once_word_app w t :
  nospace w -> spaced_once t -> spaced_once (w ++ t).
Proof.
  induction 1 as [|a w Ha _ IH]; intros Ht; [exact Ht|].
  specialize (IH Ht). cbn [app]. destruct (w ++ t) eqn:E; [exact I|].
  split; [congruence|exact IH].
Qed.

Lemma join_spaced_once ws : Forall word ws -> spaced_once (join [SP] ws).
Proof.
  induction 1 as [|w ws [Hne Hw] Hws IH]; [exact I|].
  destruct ws as [|v ws].
  - simpl. rewrite <- (app_nil_r w). now apply spaced_once_word_app.
  - rewrite join_cons. apply spaced_once_word_app; [exact Hw|].
    destruct (join_first (v :: ws) ltac:(discriminate) Hws) as (c & t & E & Hc).
    cbn [app]. rewrite E in IH |- *. split; [intros _; exact Hc|exact IH].
Qed.

Lemma join_only_SP ws :
  Forall word ws ->
  Forall (fun c => isspace c = true -> c = SP) (join [SP] ws).
Proof.
  assert (Hword : forall w, nospace w ->
            Forall (fun c => isspace c = true -> c = SP) w).
  { intros w Hw. eapply Forall_impl; [exact Hw|]. simpl. congruence. }
  induction 1 as [|w ws [Hne Hw] Hws IH]; [constructor|].
  destruct ws as [|v ws].
  - simpl. now apply Hword.
  - rewrite join_cons. apply Forall_app. split; [now apply Hword|].
    constructor; [reflexivity|exact IH].
Qed.

Lemma ink_app s t : ink (s ++ t) = ink s ++ ink t.
Proof. apply filter_app. Qed.

Lemma ink_nospace w : nospace w -> ink w = w.
Proof.
  induction 1 as [|a w Ha _ IH]; [reflexivity|].
  unfold ink in *. rewrite filter_cons, decide_True by exact Ha. now rewrite IH.
Qed.

Lemma ink_allspace s : allspace s -> ink s = [].
Proof.
  induction 1 as [|a s Ha _ IH]; [reflexivity|].
  unfold ink in *. rewrite filter_cons, decide_False by congruence. exact IH.
Qed.

Lemma ink_tokens s ws : tokens s ws -> ink s = concat ws.
Proof.
  induction 1 as [sp Hsp|sp w rest ws Hsp [_ Hw] _ _ IH].
  - now apply ink_allspace.
  - rewrite !ink_app, ink_allspace, ink_nospace, IH by assumption. reflexivity.
Qed.

Lemma ink_join ws : Forall word ws -> ink (join [SP] ws) = concat ws.
Proof.
  induction 1 as [|w ws [_ Hw] Hws IH]; [reflexivity|].
  destruct ws as [|v ws].
  - simpl. rewrite app_nil_r. now apply ink_nospace.
  - rewrite join_cons, !ink_app, ink_nospace, IH by assumption.
    reflexivity.
Qed.

(** X6.  A prompt [validate_prompt] accepts comes back with 1 to 500
    characters and not longer than it was, without whitespace at either end,
    with no whitespace character other than the blank, and with no two
    whitespace characters in a row. *)
Theorem validate_prompt_shape (x y : pystr) (w w' : world) :
  validate_prompt x w = Ok (Some y) w' ->
  (1 <= length y <= length x)%nat /\ (length x <= 500)%nat /\
  strip y = y /\
  Forall (fun c => isspace c = true -> c = SP) y /\
  spaced_once y.
Proof.
  intros H.
  destruct (validate_prompt_cases x w) as [[E R]|[(E & L & R)|(E & L & R)]];
    rewrite R in H; try discriminate.
  injection H as <- <-.
  destruct (normal_form_fixed x E) as (Hs & Hne & _).
  pose proof (split_words x) as Hw.
  split; [split|split; [exact L|split; [exact Hs|split]]].
  - destruct (join [SP] (split x)); [now elim Hne|simpl; lia].
  - apply join_split_length.
  - now apply join_only_SP.
  - now apply join_spaced_once.
Qed.

(** X6 on an example. *)
Lemma validate_prompt_shape_witness :
  strip (py "a red fox") = py "a red fox" /\ spaced_once (py "a red fox").
Proof.
  destruct (validate_prompt_shape (py "  a red 	 fox ") (py "a red fox")
              test_world test_world eq_refl) as (_ & _ & Hs & _ & Ho).
  split; [exact Hs|exact Ho].
Defined.

(** X7.  [validate_prompt] changes whitespace only: the characters of the
    result that are not whitespace are those of the input, in the same
    order. *)
Theorem validate_prompt_ink (x y : pystr) (w w' : world) :
  validate_prompt x w = Ok (Some y) w' -> ink y = ink x.
Proof.
  intros H.
  destruct (validate_prompt_cases x w) as [[E R]|[(E & L & R)|(E & L & R)]];
    rewrite R in H; try discriminate.
  injection H as <- <-.
  rewrite (ink_tokens x _ (split_tokens x)).
  apply ink_join, split_words.
Qed.

(** X7 on an example. *)
Lemma validate_prompt_ink_witness :
  ink (py "a red fox") = ink (py "  a red 	 fox ").
Proof.
  apply (validate_prompt_ink (py "  a red 	 fox ") (py "a red fox")
           test_world test_world).
  reflexivity.
Defined.

(** ** RateLimiter: lock-out and a missing counter *)

(** X8.  Once five calls have been counted, a client that keeps calling is
    locked out for as long as none of its calls comes more than 60 seconds
    after the one before: every such call is denied, however much time has
    passed since the count began. *)
Theorem check_rate_limit_lockout (w : world) (last count : Z) (times : list Z) :
  limiter_view (session w) = Some (last, count) ->
  5 <= count -> steady last times ->
  exists w',
    run_calls times w = Ok (repeat false (length times)) w' /\
    limiter_view (session w')
      = Some (List.last times last, count + Z.of_nat (length times)).
Proof.
  intros Hv Hc Hs.
  destruct (run_calls_steady times w last count Hv Hs) as (w' & Er & Ev).
  exists w'. split; [|exact Ev]. rewrite Er. f_equal.
  assert (G : forall n k, (1 <= k)%nat ->
            map (fun k => count + Z.of_nat k <=? 5) (seq k n) = repeat false n).
  { induction n as [|n IH]; intros k Hk; [reflexivity|].
    cbn [seq map repeat]. f_equal; [|apply IH; lia].
    apply Z.leb_gt. lia. }
  apply G. lia.
Qed.

(** X8 on an example: calls every 50 seconds for five minutes after the
    fifth call. *)
Lemma check_rate_limit_lockout_witness :
  let w := after_call true (1000, 5) test_world in
  exists w',
    run_calls [1050; 1100; 1150; 1200; 1250; 1300] w
      = Ok [false; false; false; false; false; false] w'.
Proof.
  cbv zeta.
  destruct (check_rate_limit_lockout (after_call true (1000, 5) test_world)
              1000 5 [1050; 1100; 1150; 1200; 1250; 1300] eq_refl)
    as (w' & Er & _).
  - lia.
  - simpl. lia.
  - exists w'. exact Er.
Defined.

(** X9.  A session that has the key [last_request_time] and lacks
    [request_count]: a call more than 60 seconds after the stored time sets
    the counter and is allowed; any other call raises AttributeError at the
    increment and leaves the world as it was. *)
Theorem check_rate_limit_missing_count (w : world) (last : Z) :
  last_request_time (session w) = Some last ->
  request_count (session w) = None ->
  (clock w - last > 60 ->
   check_rate_limit w = Ok true (after_call true (clock w, 1) w)) /\
  (clock w - last <= 60 ->
   check_rate_limit w = Raise AttributeError w).
Proof.
  destruct w as [[d l c] sec f cw dbs ck h tr]. simpl. intros -> ->.
  unfold check_rate_limit, bind, get_session, getattr, bind, get_session,
    time_time, ret; simpl.
  split; intros Hc.
  - destruct (ck - last >? 60) eqn:E.
    + unfold after_call, set_session, set_trace. simpl.
      now rewrite app_nil_r.
    + rewrite Z.gtb_ltb in E. apply Z.ltb_ge in E. lia.
  - destruct (ck - last >? 60) eqn:E; [|reflexivity].
    apply Z.gtb_lt in E. lia.
Qed.

(** X9 on an example. *)
Lemma check_rate_limit_missing_count_witness :
  let w := set_session {| demo_mode := None; last_request_time := Some 990;
                          request_count := None |} test_world in
  check_rate_limit w = Raise AttributeError w.
Proof.
  cbv zeta.
  apply (check_rate_limit_missing_count
           (set_session {| demo_mode := None; last_request_time := Some 990;
                           request_count := None |} test_world) 990);
    [reflexivity|reflexivity|simpl; lia].
Defined.

(** ** RecordStore: rows and blobs *)

Lemma get_app_r (rows : list row) r seq seq' n :
  get {| prompts := rows; sqlite_sequence := seq |} n = None ->
  get {| prompts := rows ++ [r]; sqlite_sequence := seq' |} n
    = if bool_decide (id r = n) then Some r else None.
Proof.
  unfold get. simpl. intros E. rewrite find_app_none by exact E. reflexivity.
Qed.

Lemma find_app_some {A} (f : A -> bool) l1 l2 x :
  find f l1 = Some x -> find f (l1 ++ l2) = Some x.
Proof.
  induction l1 as [|a l1 IH]; simpl; [discriminate|].
  destruct (f a); [trivial|exact IH].
Qed.

Lemma find_filter_other (rows : list row) i j :
  j <> i ->
  find (fun r => bool_decide (id r = j)) (filter (fun r => id r <> i) rows)
  = find (fun r => bool_decide (id r = j)) rows.
Proof.
  intros Hne. induction rows as [|r rows IH]; [reflexivity|].
  rewrite filter_cons. destruct (decide (id r <> i)) as [D|D].
  - simpl. now rewrite IH.
  - simpl. rewrite IH.
    rewrite bool_decide_eq_false_2; [reflexivity|].
    intros E. apply D. congruence.
Qed.

Lemma find_map_update (rows : list row) (upd : row -> row) j :
  (forall r, id (upd r) = id r) ->
  find (fun r => bool_decide (id r = j)) (map upd rows)
  = upd <$> find (fun r => bool_decide (id r = j)) rows.
Proof.
  intros Hid. induction rows as [|r rows IH]; [reflexivity|].
  simpl. rewrite Hid. destruct (bool_decide (id r = j)); [reflexivity|exact IH].
Qed.

Section StoreMore.
Context `{Platform}.

(** What a successful [save_image] has done. *)
Lemma save_image_ok_inv img prompt expected_style w fo io w1 :
  save_image img prompt expected_style w = Ok (fo, io) w1 ->
  (fo = None /\ io = None /\ fs w1 = fs w /\ db w1 = db w) \/
  (let file := py "generated_images/image_" ++ strftime (clock w) ++ py ".png" in
   let rowid := Z.max (sqlite_sequence (db w)) (max_rowid (prompts (db w))) + 1 in
   fo = Some file /\ io = Some rowid /\
   fs w !! dirname (abspath (cwd w) file) = Some Dir /\
   fs w !! abspath (cwd w) file <> Some Dir /\
   fs w1 = <[abspath (cwd w) file := File (png_encode img)]> (fs w) /\
   db w1 = {| prompts := prompts (db w)
                ++ [new_row rowid prompt expected_style file (clock w)];
              sqlite_sequence := rowid |} /\
   cwd w1 = cwd w /\ clock w1 = clock w /\ session w1 = session w).
Proof.
  unfold save_image.
  destruct ((fst (size img) >? 4096) || (snd (size img) >? 4096)).
  - unfold bind, st_error, emit, ret. intros [= <- <- <-]. left. repeat split.
  - unfold bind at 1. unfold datetime_now at 1.
    unfold bind at 1. unfold image_save, write_file.
    set (file := py "generated_images/image_" ++ strftime (clock w) ++ py ".png").
    destruct (fs w !! dirname (abspath (cwd w) file)) as [[d|]|] eqn:Ed;
      try discriminate.
    destruct (fs w !! abspath (cwd w) file) as [[d|]|] eqn:Ep; try discriminate.
    all: cbn -[abspath file]; intros [= <- <- <-]; right.
    all: repeat split; congruence.
Qed.

(** X10.  [save_image], [delete_image] and [update_evaluation] keep the ids
    of the table pairwise different and at most the AUTOINCREMENT counter,
    whether they return or raise. *)
Theorem table_ok_preserved (w : world) :
  table_ok (db w) ->
  (forall img prompt expected_style,
     table_ok (db (outcome_world (save_image img prompt expected_style w)))) /\
  (forall prompt_id filename,
     table_ok (db (outcome_world (delete_image prompt_id filename w)))) /\
  (forall prompt_id score feedback,
     table_ok (db (outcome_world (update_evaluation prompt_id score feedback w)))).
Proof.
  intros [Hnd Hle]. split; [|split].
  - intros img prompt expected_style.
    destruct (save_image img prompt expected_style w) as [[fo io] w1|e w1] eqn:E;
      cbn [outcome_world].
    + apply save_image_ok_inv in E
        as [(_ & _ & _ & ->)|(_ & _ & _ & _ & _ & -> & _)]; [now split|].
      split; cbn [prompts sqlite_sequence].
      * rewrite map_app. cbn [map id new_row]. apply NoDup_app.
        split; [exact Hnd|]. split; [|apply NoDup_singleton].
        intros x Hx Hx'. apply list_elem_of_singleton in Hx'. subst x.
        apply list_elem_of_In, in_map_iff in Hx as (r & Er & Hr).
        pose proof (max_rowid_ge _ r Hr). lia.
      * apply Forall_app. split.
        -- eapply Forall_impl; [exact Hle|]. cbn beta. intros r Hr. lia.
        -- constructor; [cbn [id new_row]; lia|constructor].
    + cbn. unfold save_image in E.
      destruct ((fst (size img) >? 4096) || (snd (size img) >? 4096));
        [discriminate|].
      unfold bind at 1 in E. unfold datetime_now at 1 in E.
      unfold bind at 1 in E. unfold image_save, write_file in E.
      destruct (fs w !! _) as [[d|]|]; [injection E as _ <-; now split
                                        | |injection E as _ <-; now split].
      destruct (fs w !! _) as [[d|]|]; try discriminate.
      injection E as _ <-. now split.
  - intros prompt_id filename.
    unfold delete_image, bind, os_path_exists.
    assert (Hdel : table_ok
              {| prompts := filter (fun r => id r <> prompt_id) (prompts (db w));
                 sqlite_sequence := sqlite_sequence (db w) |}).
    { split; cbn.
      - clear Hle. induction (prompts (db w)) as [|r rows IH]; [constructor|].
        apply NoDup_cons in Hnd as [Hr Hnd]. rewrite filter_cons.
        destruct (decide (id r <> prompt_id)); [|now apply IH].
        cbn. apply NoDup_cons. split; [|now apply IH].
        intros Hin. apply Hr.
        apply list_elem_of_In, in_map_iff in Hin as (r' & Er & Hr').
        apply list_elem_of_In, in_map_iff. exists r'. split; [exact Er|].
        apply list_elem_of_In. apply list_elem_of_In, list_elem_of_filter in Hr'.
        tauto.
      - apply Forall_forall. intros r Hr.
        apply list_elem_of_filter in Hr as [_ Hr].
        rewrite Forall_forall in Hle. now apply Hle. }
    destruct (bool_decide _).
    + unfold os_remove. destruct (fs w !! _) as [[d|]|]; cbn; try now split.
      exact Hdel.
    + exact Hdel.
  - intros [prompt_id|] score feedback; [|now split].
    unfold update_evaluation, update_prompt.
    cbn [outcome_world db set_db set_trace]. split; cbn [prompts sqlite_sequence].
    + rewrite List.map_map.
      erewrite List.map_ext; [exact Hnd|]. intros r. cbn beta.
      now destruct (bool_decide (id r = prompt_id)).
    + apply Forall_map. eapply Forall_impl; [exact Hle|].
      intros r Hr. cbn beta. now destruct (bool_decide (id r = prompt_id)).
Qed.

End StoreMore.

(** X10 on an example: the empty table of the test world. *)
Lemma table_ok_preserved_witness :
  table_ok (db test_world) /\
  table_ok (db (outcome_world
    (@save_image test_platform placeholder (py "a red fox") (py "cartoon") test_world))).
Proof.
  assert (H0 : table_ok (db test_world)) by (split; constructor).
  split; [exact H0|].
  apply (@table_ok_preserved test_platform test_world H0).
Defined.

Section Ids.
Context `{Platform}.

(** X11.  Ids are not reused: when a record is saved, then deleted, and
    another record is saved, the second id is greater than the first. *)
Theorem save_image_id_not_reused
    (img1 img2 : image) (p1 s1 p2 s2 f : pystr) (fo1 fo2 : option pystr)
    (i j : Z) (w w1 w2 w3 : world) :
  save_image img1 p1 s1 w = Ok (fo1, Some i) w1 ->
  delete_image i f w1 = Ok tt w2 ->
  save_image img2 p2 s2 w2 = Ok (fo2, Some j) w3 ->
  i < j /\ get (db w2) i = None /\ get (db w3) i = None.
Proof.
  intros Hs1 Hd Hs2.
  apply save_image_ok_inv in Hs1
    as [(_ & D & _)|(_ & [= Ei] & _ & _ & _ & Edb1 & _)]; [discriminate|].
  assert (Edb2 : db w2 = {| prompts := filter (fun r => id r <> i) (prompts (db w1));
                            sqlite_sequence := sqlite_sequence (db w1) |}).
  { unfold delete_image, bind, os_path_exists in Hd.
    destruct (bool_decide _) in Hd.
    - unfold os_remove in Hd. destruct (fs w1 !! _) as [[d|]|]; try discriminate.
      now injection Hd as <-.
    - now injection Hd as <-. }
  apply save_image_ok_inv in Hs2
    as [(_ & D & _)|(_ & [= Ej] & _ & _ & _ & Edb3 & _)]; [discriminate|].
  assert (Hseq : sqlite_sequence (db w2) = i).
  { rewrite Edb2, Edb1. cbn [sqlite_sequence]. exact (eq_sym Ei). }
  assert (Hij : i < j) by (rewrite Ej, Hseq; lia).
  assert (Hg2 : get (db w2) i = None).
  { rewrite Edb2. apply get_after_delete. }
  split; [exact Hij|]. split; [exact Hg2|].
  rewrite Edb3. destruct (db w2) as [rows seq] eqn:Ew2.
  cbn [prompts sqlite_sequence] in *.
  rewrite (get_app_r rows _ seq _ i Hg2).
  rewrite bool_decide_eq_false_2; [reflexivity|].
  cbn [id new_row]. rewrite <- Ej. lia.
Qed.

(** X12.  What [save_image] has written, [load_image] reads back: after a
    successful save the returned name exists, and [load_image] opens the
    bytes written for the image, reading that file once. *)
Theorem save_then_load (img : image) (prompt expected_style file : pystr)
    (rowid : Z) (w w1 : world) :
  save_image img prompt expected_style w = Ok (Some file, Some rowid) w1 ->
  os_path_exists file w1 = Ok true w1 /\
  load_image file w1 =
    match Image_open (png_encode img) with
    | Some img' =>
        Ok (Some img') (set_trace (trace w1 ++ [EvRead (abspath (cwd w1) file)]) w1)
    | None =>
        Raise UnidentifiedImageError
          (set_trace (trace w1 ++ [EvRead (abspath (cwd w1) file)]) w1)
    end.
Proof.
  intros Hs.
  apply save_image_ok_inv in Hs
    as [(D & _)|([= Ef] & _ & _ & _ & Efs & _ & Ecwd & _)]; [discriminate|].
  assert (Hl : fs w1 !! abspath (cwd w1) file = Some (File (png_encode img))).
  { rewrite Efs, Ecwd, Ef. apply lookup_insert_eq. }
  unfold load_image, bind, os_path_exists, read_file, image_open.
  rewrite Hl, exists_some. split; [reflexivity|].
  cbv beta iota. rewrite Hl. now destruct (Image_open (png_encode img)).
Qed.

End Ids.

(** X11 on an example: save, delete, save in the test world. *)
Lemma save_image_id_not_reused_witness :
  let w2 := outcome_world (delete_image 1 saved_file saved_world) in
  1 < 2 /\ get (db w2) 1 = None /\
  get (db (outcome_world
             (@save_image test_platform placeholder (py "a blue fox")
                (py "realistic") w2))) 1 = None.
Proof.
  cbv zeta.
  apply (@save_image_id_not_reused test_platform placeholder placeholder
           (py "a red fox") (py "cartoon") (py "a blue fox") (py "realistic")
           saved_file (Some saved_file) (Some saved_file) 1 2
           test_world saved_world
           (outcome_world (delete_image 1 saved_file saved_world))
           (outcome_world
              (@save_image test_platform placeholder (py "a blue fox")
                 (py "realistic")
                 (outcome_world (delete_image 1 saved_file saved_world)))));
    vm_compute; reflexivity.
Defined.

(** X12 on an example. *)
Lemma save_then_load_witness :
  @os_path_exists saved_file saved_world = Ok true saved_world.
Proof.
  apply (@save_then_load test_platform placeholder (py "a red fox") (py "cartoon")
           saved_file 1 test_world saved_world).
  vm_compute. reflexivity.
Defined.

Section Evaluation.
Context `{Platform}.

(** X13.  [update_evaluation] without an id shows a message and changes
    nothing else.  With an id it sets score and feedback of the row of that
    id and leaves every other row, the number of rows and the files as they
    were; when the table has no row of that id, the table stays as it is and
    no error is reported. *)
Theorem update_evaluation_spec (score : Z) (feedback : pystr) (w : world) :
  update_evaluation None score feedback w
    = Ok tt (set_trace
               (trace w ++ [EvError (py "Cannot submit rating: No prompt ID available.")]) w) /\
  forall prompt_id, exists w',
    update_evaluation (Some prompt_id) score feedback w = Ok tt w' /\
    fs w' = fs w /\ trace w' = trace w ++ [EvUpdate prompt_id] /\
    get (db w') prompt_id = with_evaluation score feedback <$> get (db w) prompt_id /\
    (forall j, j <> prompt_id -> get (db w') j = get (db w) j) /\
    length (prompts (db w')) = length (prompts (db w)) /\
    (get (db w) prompt_id = None -> prompts (db w') = prompts (db w)).
Proof.
  split; [reflexivity|]. intros prompt_id. eexists. split; [reflexivity|].
  cbn [fs db trace set_db set_trace]. split; [reflexivity|]. split; [reflexivity|].
  unfold get. cbn [prompts].
  set (upd := fun r : row => if bool_decide (id r = prompt_id)
                             then _ else r).
  assert (Hid : forall r, id (upd r) = id r).
  { intros r. unfold upd. now destruct (bool_decide (id r = prompt_id)). }
  split; [|split; [|split]].
  - rewrite (find_map_update _ upd _ Hid).
    destruct (find _ (prompts (db w))) as [r|] eqn:E; [|reflexivity].
    apply find_some in E as [_ E]. cbn. unfold upd. now rewrite E.
  - intros j Hj. rewrite (find_map_update _ upd _ Hid).
    destruct (find _ (prompts (db w))) as [r|] eqn:E; [|reflexivity].
    apply find_some in E as [_ E]. apply bool_decide_eq_true in E.
    cbn. unfold upd. rewrite bool_decide_eq_false_2 by congruence. reflexivity.
  - apply length_map.
  - intros E. rewrite <- (map_id (prompts (db w))) at 2.
    apply map_ext_in. intros r Hr.
    pose proof (find_none _ _ E r Hr) as Hf. cbn beta in Hf.
    unfold upd. now rewrite Hf.
Qed.


End Evaluation.

(** X13 on an example: rating the saved record. *)
Lemma update_evaluation_spec_witness :
  exists w',
    update_evaluation (Some 1) 7 (py "ok") saved_world = Ok tt w' /\
    get (db w') 1
      = with_evaluation 7 (py "ok") <$> get (db saved_world) 1.
Proof.
  destruct (update_evaluation_spec 7 (py "ok") saved_world) as (_ & Hu).
  destruct (Hu 1) as (w' & E & _ & _ & Hg & _).
  exists w'. split; [exact E|exact Hg].
Defined.


Section DeleteMore.
Context `{Platform}.

Lemma delete_image_inv prompt_id file w w1 :
  delete_image prompt_id file w = Ok tt w1 ->
  fs w !! abspath (cwd w) file <> Some Dir /\
  fs w1 = delete (abspath (cwd w) file) (fs w) /\
  db w1 = {| prompts := filter (fun r => id r <> prompt_id) (prompts (db w));
             sqlite_sequence := sqlite_sequence (db w) |} /\
  cwd w1 = cwd w.
Proof.
  unfold delete_image, bind, os_path_exists, os_remove.
  destruct (fs w !! abspath (cwd w) file) as [[d|]|] eqn:E.
  - rewrite exists_some. cbv beta iota. rewrite E. intros [= <-].
    repeat split. discriminate.
  - rewrite exists_some. cbv beta iota. rewrite E. discriminate.
  - rewrite exists_none. intros [= <-]. repeat split; [discriminate|].
    cbn. symmetry. now apply delete_id.
Qed.

(** X15.  A completed [delete_image] leaves every row of another id and
    every file under another path as they were, and doing it again changes
    neither the files nor the table. *)
Theorem delete_image_frame (prompt_id : Z) (file : pystr) (w w1 : world) :
  delete_image prompt_id file w = Ok tt w1 ->
  (forall j, j <> prompt_id -> get (db w1) j = get (db w) j) /\
  (forall q, q <> abspath (cwd w) file -> fs w1 !! q = fs w !! q) /\
  exists w2, delete_image prompt_id file w1 = Ok tt w2 /\
             fs w2 = fs w1 /\ db w2 = db w1.
Proof.
  intros Hd. destruct (delete_image_inv _ _ _ _ Hd) as (_ & Efs & Edb & Ecwd).
  split; [|split].
  - intros j Hj. rewrite Edb. unfold get. cbn [prompts].
    now apply find_filter_other.
  - intros q Hq. rewrite Efs. now apply lookup_delete_ne.
  - assert (Hgone : fs w1 !! abspath (cwd w1) file = None).
    { rewrite Efs, Ecwd. apply lookup_delete_eq. }
    unfold delete_image, bind, os_path_exists. rewrite Hgone, exists_none.
    eexists. split; [reflexivity|]. split; [reflexivity|].
    cbn [db set_db set_trace]. rewrite Edb. cbn [prompts sqlite_sequence].
    f_equal. apply list_filter_filter_l. tauto.
Qed.

End DeleteMore.

(** X15 on an example: deleting the saved record. *)
Lemma delete_image_frame_witness :
  exists w2,
    delete_image 1 saved_file
      (outcome_world (delete_image 1 saved_file saved_world)) = Ok tt w2 /\
    fs w2 = fs (outcome_world (delete_image 1 saved_file saved_world)).
Proof.
  destruct (delete_image_frame 1 saved_file saved_world
              (outcome_world (delete_image 1 saved_file saved_world)))
    as (_ & _ & w2 & E & Ef & _).
  - vm_compute. reflexivity.
  - exists w2. split; [exact E|exact Ef].
Defined.

Section Collision.
Context `{Platform}.

(** When the directory is there and the name is not a directory's, an
    image that fits is saved. *)
Lemma save_image_ok img prompt expected_style w :
  fst (size img) <= 4096 -> snd (size img) <= 4096 ->
  let file := py "generated_images/image_" ++ strftime (clock w) ++ py ".png" in
  let rowid := Z.max (sqlite_sequence (db w)) (max_rowid (prompts (db w))) + 1 in
  fs w !! dirname (abspath (cwd w) file) = Some Dir ->
  fs w !! abspath (cwd w) file <> Some Dir ->
  exists w1, save_image img prompt expected_style w = Ok (Some file, Some rowid) w1.
Proof.
  intros Hw Hh file rowid Hdir Hp. unfold save_image.
  assert (E : (fst (size img) >? 4096) || (snd (size img) >? 4096) = false).
  { apply orb_false_iff. rewrite !Z.gtb_ltb, !Z.ltb_ge. lia. }
  rewrite E. unfold bind at 1. unfold datetime_now at 1.
  unfold bind at 1. unfold image_save, write_file.
  fold file. rewrite Hdir.
  destruct (fs w !! abspath (cwd w) file) as [[d|]|]; [|now elim Hp|];
    eexists; reflexivity.
Qed.

(** X16.  Two images saved within the same second share one file.  The
    second save succeeds under the name of the first and overwrites its
    blob; both rows name that file; and deleting the first record removes
    the blob of the second, whose row stays while its image cannot be
    loaded any more. *)
Theorem save_image_same_second
    (img1 img2 : image) (p1 s1 p2 s2 file : pystr) (i1 t : Z) (w w1 : world) :
  save_image img1 p1 s1 w = Ok (Some file, Some i1) w1 ->
  strftime t = strftime (clock w) ->
  fst (size img2) <= 4096 -> snd (size img2) <= 4096 ->
  exists i2 w2,
    save_image img2 p2 s2 (set_clock t w1) = Ok (Some file, Some i2) w2 /\
    i1 < i2 /\
    fs w2 !! abspath (cwd w2) file = Some (File (png_encode img2)) /\
    filename <$> get (db w2) i1 = Some file /\
    filename <$> get (db w2) i2 = Some file /\
    exists w3,
      delete_image i1 file w2 = Ok tt w3 /\
      filename <$> get (db w3) i2 = Some file /\
      load_image file w3 = Ok None w3.
Proof.
  intros Hs1 Ht Hw2 Hh2.
  apply save_image_ok_inv in Hs1
    as [(D & _)|(Ef0 & Ei0 & Hdir & Hp & Efs & Edb & Ecwd & Eclk & _)];
    [discriminate|].
  assert (Ef : file = py "generated_images/image_" ++ strftime (clock w) ++ py ".png")
    by congruence.
  assert (Ei : i1 = Z.max (sqlite_sequence (db w)) (max_rowid (prompts (db w))) + 1)
    by congruence.
  clear Ef0 Ei0.
  set (p := abspath (cwd w) file).
  rewrite <- Ef in Hdir, Hp, Efs, Edb. fold p in Hdir, Hp, Efs.
  assert (Hne : dirname p <> p) by congruence.
  destruct (save_image_ok img2 p2 s2 (set_clock t w1) Hw2 Hh2) as (w2 & Hs2).
  { cbn [clock cwd fs set_clock]. rewrite Ht, <- Ef, Ecwd. fold p.
    rewrite Efs, lookup_insert_ne by congruence. exact Hdir. }
  { cbn [clock cwd fs set_clock]. rewrite Ht, <- Ef, Ecwd. fold p.
    rewrite Efs, lookup_insert_eq. discriminate. }
  cbn [clock cwd fs db set_clock] in Hs2. rewrite Ht, <- Ef in Hs2.
  set (i2 := Z.max (sqlite_sequence (db w1)) (max_rowid (prompts (db w1))) + 1) in Hs2.
  exists i2, w2. split; [exact Hs2|].
  pose proof Hs2 as Hinv. apply save_image_ok_inv in Hinv
    as [(D & _)|(_ & _ & _ & _ & Efs2 & Edb2 & Ecwd2 & _)]; [discriminate|].
  cbn [clock cwd fs db set_clock] in Efs2, Edb2, Ecwd2.
  rewrite Ht, <- Ef, Ecwd in Efs2. fold p in Efs2.
  rewrite Ht, <- Ef in Edb2. fold i2 in Edb2.
  assert (Hseq1 : sqlite_sequence (db w1) = i1) by (rewrite Edb; now cbn).
  assert (Hi : i1 < i2) by (unfold i2; lia).
  assert (Hfresh1 : find (fun r => bool_decide (id r = i1)) (prompts (db w)) = None).
  { apply find_none_above. lia. }
  assert (Hfresh2 : find (fun r => bool_decide (id r = i2)) (prompts (db w1)) = None).
  { apply find_none_above. unfold i2. lia. }
  assert (Hg1 : find (fun r => bool_decide (id r = i1)) (prompts (db w1))
                = Some (new_row i1 p1 s1 file (clock w))).
  { rewrite Edb. cbn [prompts]. rewrite find_app_none by exact Hfresh1.
    cbn [find id new_row]. rewrite <- Ei.
    now rewrite bool_decide_eq_true_2. }
  assert (Hg2 : find (fun r => bool_decide (id r = i2)) (prompts (db w2))
                = Some (new_row i2 p2 s2 file (clock (set_clock t w1)))).
  { rewrite Edb2. cbn [prompts]. rewrite find_app_none by exact Hfresh2.
    cbn [find id new_row]. now rewrite bool_decide_eq_true_2. }
  split; [exact Hi|]. split; [|split; [|split]].
  - rewrite Ecwd2, Ecwd. fold p. rewrite Efs2. apply lookup_insert_eq.
  - unfold get. rewrite Edb2. cbn [prompts].
    rewrite (find_app_some _ _ _ _ Hg1). reflexivity.
  - unfold get. rewrite Hg2. reflexivity.
  - assert (Hfile : fs w2 !! abspath (cwd w2) file = Some (File (png_encode img2))).
    { rewrite Ecwd2, Ecwd. fold p. rewrite Efs2. apply lookup_insert_eq. }
    unfold delete_image, bind, os_path_exists, os_remove.
    rewrite Hfile, exists_some. cbv beta iota. rewrite Hfile.
    eexists. split; [reflexivity|]. split.
    + unfold get. cbn [db set_db set_fs set_trace prompts].
      rewrite find_filter_other by lia. rewrite Hg2. reflexivity.
    + unfold load_image, bind, os_path_exists.
      cbn [fs cwd set_db set_fs set_trace].
      rewrite lookup_delete_eq, exists_none. reflexivity.
Qed.

End Collision.

(** X16 on an example: a second image saved one tick later, within the
    same second. *)
Lemma save_image_same_second_witness :
  exists i2 w2,
    @save_image test_platform placeholder (py "a blue fox") (py "realistic")
      (set_clock 1000 saved_world) = Ok (Some saved_file, Some i2) w2 /\
    1 < i2.
Proof.
  destruct (@save_image_same_second test_platform placeholder placeholder
              (py "a red fox") (py "cartoon") (py "a blue fox") (py "realistic")
              saved_file 1 1000 test_world saved_world)
    as (i2 & w2 & E & Hi & _).
  - vm_compute. reflexivity.
  - reflexivity.
  - simpl. lia.
  - simpl. lia.
  - exists i2, w2. split; [exact E|exact Hi].
Defined.

(** ** EvaluationAggregator: order and range *)

Lemma py_sum_perm l l' : Permutation l l' -> py_sum l = py_sum l'.
Proof.
  rewrite !py_sum_foldr. induction 1; simpl; lia.
Qed.

Lemma true_div_perm l l' :
  Permutation l l' -> true_div (py_sum l) (length l) = true_div (py_sum l') (length l').
Proof.
  intros Hp. now rewrite (py_sum_perm _ _ Hp), (Permutation_length Hp).
Qed.

Lemma evaluated_perm prompts prompts' :
  Permutation prompts prompts' ->
  Permutation (evaluated_prompts prompts) (evaluated_prompts prompts').
Proof. intros Hp. unfold evaluated_prompts. now rewrite Hp. Qed.

(** X17.  The report does not depend on the order of the records: any
    rearrangement of the list gives the same overall average and the same
    averages by style. *)
Theorem evaluation_report_perm (prompts prompts' : list row) :
  Permutation prompts prompts' ->
  evaluation_report prompts = evaluation_report prompts'.
Proof.
  intros Hp. pose proof (evaluated_perm _ _ Hp) as He.
  unfold evaluation_report.
  destruct (decide (evaluated_prompts prompts = [])) as [E|E].
  - assert (E' : evaluated_prompts prompts' = []).
    { rewrite E in He. now apply Permutation_nil_l in He. }
    now rewrite !bool_decide_eq_true_2 by assumption.
  - assert (E' : evaluated_prompts prompts' <> []).
    { intros E'. rewrite E' in He. now apply Permutation_nil_r in He. }
    rewrite !bool_decide_eq_false_2 by assumption. do 2 f_equal.
    + unfold avg_score. rewrite <- !(length_map score_of).
      apply true_div_perm. now apply Permutation_map.
    + apply map_eq. intros style. unfold style_averages.
      rewrite !lookup_fmap, !styles_of_lookup.
      assert (Hs : Permutation
                (map score_of (filter (fun p => expected_style p = style)
                                      (evaluated_prompts prompts)))
                (map score_of (filter (fun p => expected_style p = style)
                                      (evaluated_prompts prompts')))).
      { apply Permutation_map. now rewrite He. }
      destruct (map score_of (filter _ (evaluated_prompts prompts))) as [|a l] eqn:E1;
        destruct (map score_of (filter _ (evaluated_prompts prompts'))) as [|a' l'] eqn:E2.
      * reflexivity.
      * now apply Permutation_nil_l in Hs.
      * now apply Permutation_nil_r in Hs.
      * cbn [fmap option_fmap option_map]. f_equal. now apply true_div_perm.
Qed.

(** X17 on an example: the records of the example in reverse. *)
Lemma evaluation_report_perm_witness :
  evaluation_report example_records = evaluation_report (rev example_records).
Proof.
  apply evaluation_report_perm. apply Permutation_rev.
Defined.

Lemma foldr_add_bounds l lo hi :
  Forall (fun s => lo <= s <= hi) l ->
  lo * Z.of_nat (length l) <= foldr Z.add 0 l <= hi * Z.of_nat (length l).
Proof.
  induction 1 as [|a l Ha _ IH]; [simpl; lia|].
  cbn [length foldr]. lia.
Qed.

Lemma mean_bounds l lo hi :
  l <> [] -> Forall (fun s => lo <= s <= hi) l ->
  (inject_Z lo <= mean l <= inject_Z hi)%Q.
Proof.
  intros Hne Hl. pose proof (foldr_add_bounds l lo hi Hl) as [Hlo Hhi].
  assert (Hn : (0 < inject_Z (Z.of_nat (length l)))%Q).
  { change 0%Q with (inject_Z 0). rewrite <- Zlt_Qlt.
    destruct l; [now elim Hne|simpl; lia]. }
  unfold mean. split.
  - apply Qle_shift_div_l; [exact Hn|].
    rewrite <- inject_Z_mult, <- Zle_Qle. exact Hlo.
  - apply Qle_shift_div_r; [exact Hn|].
    rewrite <- inject_Z_mult, <- Zle_Qle. exact Hhi.
Qed.

Lemma scores_of_style_sub style prompts lo hi :
  Forall (fun s => lo <= s <= hi) (scores prompts) ->
  Forall (fun s => lo <= s <= hi) (scores_of_style style prompts).
Proof.
  unfold scores, scores_of_style. rewrite !Forall_forall.
  intros Hall s Hs. apply Hall.
  apply list_elem_of_omap in Hs as (r & Hr & Es).
  apply list_elem_of_omap. exists r. split; [|exact Es].
  apply list_elem_of_filter in Hr. tauto.
Qed.

(** X18.  Averages stay in the range of the scores: when every score that
    is present lies between [lo] and [hi], so do the overall average and
    the average of every style. *)
Theorem evaluation_report_bounds (prompts : list row) (lo hi : Z)
    (avg : Q) (by_style : gmap pystr Q) :
  Forall (fun s => lo <= s <= hi) (scores prompts) ->
  evaluation_report prompts = Some (avg, by_style) ->
  (inject_Z lo <= avg <= inject_Z hi)%Q /\
  forall style m, by_style !! style = Some m ->
    (inject_Z lo <= m <= inject_Z hi)%Q.
Proof.
  intros Hall Hr. unfold evaluation_report in Hr.
  destruct (decide (evaluated_prompts prompts = [])) as [E|E].
  - rewrite bool_decide_eq_true_2 in Hr by exact E. discriminate.
  - rewrite bool_decide_eq_false_2 in Hr by exact E. injection Hr as <- <-.
    split.
    + unfold avg_score. rewrite <- (length_map score_of), true_div_mean.
      rewrite scores_evaluated. apply mean_bounds; [|exact Hall].
      rewrite <- scores_evaluated. intros En. apply map_eq_nil in En. now apply E.
    + intros style m. unfold style_averages.
      rewrite lookup_fmap, styles_of_lookup, scores_of_style_evaluated.
      pose proof (scores_of_style_sub style prompts lo hi Hall) as Hs.
      destruct (scores_of_style style prompts) as [|a l] eqn:El; [discriminate|].
      cbn [fmap option_fmap option_map]. intros [= <-]. rewrite true_div_mean.
      apply mean_bounds; [discriminate|exact Hs].
Qed.

(** X18 on an example: the scores of the example lie between 1 and 10. *)
Lemma evaluation_report_bounds_witness :
  (inject_Z 1 <= 8 # 1 <= inject_Z 10)%Q.
Proof.
  apply (evaluation_report_bounds example_records 1 10 (8 # 1)
           {[ py "realistic" := 7 # 1; py "cartoon" := 10 # 1 ]}).
  - repeat constructor; lia.
  - vm_compute. reflexivity.
Defined.

(** ** The form "Generate Image" *)

(** The limiter touches nothing but the session and the trace. *)
Lemma check_rate_limit_frame w :
  let w' := outcome_world (check_rate_limit w) in
  fs w' = fs w /\ db w' = db w /\ cwd w' = cwd w /\ secret w' = secret w /\
  http w' = http w /\ clock w' = clock w /\
  demo_mode (session w') = demo_mode (session w).
Proof.
  destruct w as [[d l c] sec f cw dbs ck h tr].
  unfold check_rate_limit, bind, get_session, getattr, bind, get_session,
    time_time, ret; simpl.
  destruct l as [l|]; [destruct c as [c|]|]; simpl.
  all: destruct (_ >? 60); simpl; try (repeat split; fail).
  all: try destruct (_ >? 5); simpl; repeat split.
Qed.

Section SubmitLemmas.
Context `{Platform}.

(** [generate_image] leaves files, table, working directory and limiter
    state alone. *)
Lemma generate_image_stores prompt style w :
  let w' := outcome_world (generate_image prompt style w) in
  fs w' = fs w /\ db w' = db w /\ cwd w' = cwd w /\
  limiter_view (session w') = limiter_view (session w).
Proof.
  unfold generate_image, bind, secrets_get, get_session, ret.
  destruct (truthy (default [] (secret w))) eqn:Ht; simpl.
  - destruct (demo_mode (session w)) as [[|]|] eqn:Hd; simpl;
      try (repeat split; fail).
    unfold generate_live, bind.
    destruct (attempt_loop _ _ _ _ _ w) as [[img|[r|]] w1|e w1] eqn:El.
    all: destruct (attempt_loop_events _ _ _ _ _ _ _ (eq_sym El))
        as (_ & _ & (Es & _ & Ef & Ec & Edb) & _).
    all: cbn [outcome_world] in *.
    all: try rewrite report_failure_spec; cbn [outcome_world].
    all: cbn [fs db cwd session set_trace].
    all: refine (conj Ef (conj Edb (conj Ec _))).
    all: unfold ret, raise; cbn [outcome_world session set_trace]; now rewrite Es.
  - repeat split.
Qed.

Lemma save_image_frame img prompt expected_style w o :
  o = save_image img prompt expected_style w ->
  session (outcome_world o) = session w /\ cwd (outcome_world o) = cwd w /\
  (result_of o = None -> fs (outcome_world o) = fs w /\ db (outcome_world o) = db w).
Proof.
  intros Ho. unfold save_image in Ho.
  destruct ((fst (size img) >? 4096) || (snd (size img) >? 4096));
    [subst o; repeat split|].
  unfold bind at 1 in Ho. unfold datetime_now at 1 in Ho.
  unfold bind at 1 in Ho. unfold image_save, write_file in Ho.
  set (p := abspath (cwd w) _) in Ho.
  destruct (fs w !! dirname p) as [[d|]|]; try (subst o; repeat split; fail).
  destruct (fs w !! p) as [[d'|]|]; subst o; repeat split; discriminate.
Qed.

(** [submit] by stages. *)
Lemma submit_rejected prompt expected_style w w1 :
  validate_prompt prompt w = Ok None w1 ->
  submit prompt expected_style w = Ok None w1.
Proof. intros E. unfold submit, bind. now rewrite E. Qed.

Lemma submit_accepted prompt expected_style y w :
  validate_prompt prompt w = Ok (Some y) w ->
  submit prompt expected_style w =
    match check_rate_limit w with
    | Ok true w1 =>
        match generate_image y (Some expected_style) w1 with
        | Ok (Some image) w2 =>
            match save_image image y expected_style w2 with
            | Ok (Some filename, io) w3 => Ok io w3
            | Ok (None, _) w3 => Ok None w3
            | Raise e w3 => Raise e w3
            end
        | Ok None w2 => Ok None w2
        | Raise e w2 => Raise e w2
        end
    | Ok false w1 => Ok None w1
    | Raise e w1 => Raise e w1
    end.
Proof.
  intros E. unfold submit. unfold bind at 1. rewrite E.
  assert (Hy : truthy y = true).
  { destruct (validate_prompt_cases prompt w) as [[N R]|[(N & L & R)|(N & L & R)]];
      rewrite R in E; try discriminate.
    injection E as <-. destruct (normal_form_fixed prompt N) as (_ & Hne & _).
    now destruct (join [SP] (split prompt)). }
  rewrite Hy. cbn [negb]. unfold bind at 1.
  destruct (check_rate_limit w) as [[|] w1|e w1]; cbn [negb]; try reflexivity.
  unfold bind at 1.
  destruct (generate_image y (Some expected_style) w1) as [[image|] w2|e w2];
    try reflexivity.
  unfold bind at 1.
  destruct (save_image image y expected_style w2) as [[[filename|] io] w3|e w3] eqn:Es;
    try reflexivity.
  cbn [fst snd]. unfold ret.
  apply save_image_ok_inv in Es as [(D & _)|(Ef & _)]; [discriminate|].
  assert (Hf : truthy filename = true) by (injection Ef as ->; reflexivity).
  now rewrite Hf.
Qed.

End SubmitLemmas.

Section Submit.
Context `{Platform}.

(** X19.  Quota accounting of a submission.  A prompt the validator
    rejects is answered without the limiter being consulted, so it costs
    nothing.  A prompt the validator accepts costs exactly one call of the
    limiter, whether the call is denied, the generation fails or raises, or
    a record is saved. *)
Theorem submit_quota (text style : pystr) (w : world) (st : Z * Z) :
  limiter_view (session w) = Some st ->
  (forall w1, validate_prompt text w = Ok None w1 ->
     submit text style w = Ok None w1 /\
     limiter_view (session w1) = Some st) /\
  (forall y, validate_prompt text w = Ok (Some y) w ->
     limiter_view (session (outcome_world (submit text style w)))
       = Some (snd (limiter_step (clock w) st))).
Proof.
  intros Hv. split.
  - intros w1 E. split; [now apply submit_rejected|].
    destruct (validate_prompt_cases text w) as [[N R]|[(N & L & R)|(N & L & R)]];
      rewrite R in E; try discriminate; now injection E as <-.
  - intros y E. rewrite (submit_accepted _ _ _ _ E).
    rewrite (check_rate_limit_step w st Hv).
    set (w1 := after_call _ _ w).
    assert (H1 : limiter_view (session w1) = Some (snd (limiter_step (clock w) st)))
      by apply limiter_view_after_call.
    destruct (fst (limiter_step (clock w) st)); [|exact H1].
    pose proof (generate_image_stores y (Some style) w1) as (_ & _ & _ & Hg).
    cbv zeta in Hg.
    destruct (generate_image y (Some style) w1) as [[image|] w2|e w2];
      cbn [outcome_world] in *; try (now rewrite Hg).
    pose proof (save_image_frame image y style w2 _ eq_refl) as (Hs & _).
    destruct (save_image image y style w2) as [[[filename|] io] w3|e w3];
      cbn [outcome_world] in *; now rewrite Hs, Hg.
Qed.

(** X20.  A submission that stores no id has left no artifact: files and
    table are as they were before. *)
Theorem submit_none_clean (text style : pystr) (w w' : world) :
  submit text style w = Ok None w' ->
  fs w' = fs w /\ db w' = db w.
Proof.
  intros Hs.
  destruct (validate_prompt_cases text w) as [[N R]|[(N & L & R)|(N & L & R)]].
  - rewrite (submit_rejected _ _ _ _ R) in Hs. now injection Hs as <-.
  - rewrite (submit_rejected _ _ _ _ R) in Hs. now injection Hs as <-.
  - rewrite (submit_accepted _ _ _ _ R) in Hs.
    pose proof (check_rate_limit_frame w) as (Hf1 & Hd1 & _). cbv zeta in Hf1, Hd1.
    destruct (check_rate_limit w) as [[|] w1|e w1]; cbn [outcome_world] in *;
      try discriminate.
    + pose proof (generate_image_stores (join [SP] (split text))
                    (Some style) w1) as (Hf2 & Hd2 & _).
      cbv zeta in Hf2, Hd2.
      destruct (generate_image _ (Some style) w1) as [[image|] w2|e w2];
        cbn [outcome_world] in *; try discriminate.
      * destruct (save_image image _ style w2)
          as [[[filename|] io] w3|e w3] eqn:Es; try discriminate.
        -- injection Hs as -> ->.
           apply save_image_ok_inv in Es as [(D & _)|(_ & D & _)]; discriminate.
        -- injection Hs as ->.
           apply save_image_ok_inv in Es as [(_ & _ & Hf3 & Hd3)|(D & _)];
             [|discriminate].
           split; congruence.
      * injection Hs as <-. split; congruence.
    + injection Hs as <-. split; congruence.
Qed.

(** X21.  A submission that stores an id has saved a record under it: the
    id was not in the table before, its row holds the normalized prompt and
    the chosen style and no evaluation, and the file the row names holds the
    bytes of an image. *)
Theorem submit_some_recorded (text style : pystr) (i : Z) (w w' : world) :
  submit text style w = Ok (Some i) w' ->
  exists y r img,
    validate_prompt text w = Ok (Some y) w /\
    get (db w) i = None /\ get (db w') i = Some r /\
    id r = i /\ prompt r = y /\ expected_style r = style /\
    score r = None /\ feedback r = None /\
    fs w' !! abspath (cwd w') (filename r) = Some (File (png_encode img)).
Proof.
  intros Hs.
  destruct (validate_prompt_cases text w) as [[N R]|[(N & L & R)|(N & L & R)]];
    try (rewrite (submit_rejected _ _ _ _ R) in Hs; discriminate).
  rewrite (submit_accepted _ _ _ _ R) in Hs.
  pose proof (check_rate_limit_frame w) as (_ & Hd1 & _). cbv zeta in Hd1.
  destruct (check_rate_limit w) as [[|] w1|e w1]; cbn [outcome_world] in *;
    try discriminate.
  pose proof (generate_image_stores (join [SP] (split text)) (Some style) w1)
    as (_ & Hd2 & _).
  cbv zeta in Hd2.
  destruct (generate_image _ (Some style) w1) as [[image|] w2|e w2];
    cbn [outcome_world] in *; try discriminate.
  destruct (save_image image _ style w2) as [[[file|] io] w3|e w3] eqn:Es;
    try discriminate.
  injection Hs as -> ->.
  apply save_image_ok_inv in Es
    as [(D & _)|(Ef0 & Ei0 & _ & _ & Efs & Edb & Ecwd & _)]; [discriminate|].
  assert (Ei : i = Z.max (sqlite_sequence (db w2)) (max_rowid (prompts (db w2))) + 1)
    by congruence.
  assert (Hfresh : get (db w2) i = None).
  { apply find_none_above. lia. }
  exists (join [SP] (split text)),
         (new_row i (join [SP] (split text)) style
            (py "generated_images/image_" ++ strftime (clock w2) ++ py ".png")
            (clock w2)),
         image.
  split; [exact R|]. split; [congruence|]. split.
  - rewrite Edb. destruct (db w2) as [rows seq].
    rewrite (get_app_r rows _ seq _ i Hfresh). rewrite <- Ei.
    cbn [id new_row]. now rewrite bool_decide_eq_true_2.
  - repeat split. cbn [filename new_row]. rewrite Ecwd, Efs.
    apply lookup_insert_eq.
Qed.

End Submit.

(** X19 on an example: an accepted prompt in the test world. *)
Lemma submit_quota_witness :
  limiter_view (session (outcome_world
     (@submit test_platform (py "  a red   fox ") (py "cartoon") test_world)))
  = Some (1000, 1).
Proof.
  destruct (@submit_quota test_platform (py "  a red   fox ") (py "cartoon")
              test_world (0, 0) eq_refl) as (_ & Hacc).
  apply (Hacc (py "a red fox")). reflexivity.
Defined.

(** X20 on an example: an empty prompt. *)
Lemma submit_none_clean_witness :
  fs (outcome_world (@submit test_platform [] (py "cartoon") test_world))
    = fs test_world /\
  db (outcome_world (@submit test_platform [] (py "cartoon") test_world))
    = db test_world.
Proof.
  apply (@submit_none_clean test_platform [] (py "cartoon") test_world).
  vm_compute. reflexivity.
Defined.

(** X21 on an example: the first submission in the test world, which runs
    in fallback mode. *)
Lemma submit_some_recorded_witness :
  exists y r,
    validate_prompt (py "  a red   fox ") test_world = Ok (Some y) test_world /\
    get (db (outcome_world
               (@submit test_platform (py "  a red   fox ") (py "cartoon") test_world))) 1
      = Some r /\
    prompt r = y.
Proof.
  destruct (@submit_some_recorded test_platform (py "  a red   fox ") (py "cartoon") 1
              test_world
              (outcome_world
                 (@submit test_platform (py "  a red   fox ") (py "cartoon") test_world)))
    as (y & r & img & Hv & _ & Hg & _ & Hp & _).
  - vm_compute. reflexivity.
  - exists y, r. repeat split; assumption.
Defined.

(** ** The gallery: pages *)

Lemma slice_page (l : list row) (k : nat) :
  paginated_prompts (Z.of_nat (S k)) l = take 9 (drop (9 * k) l).
Proof.
  unfold paginated_prompts, py_slice, slice_index, images_per_page.
  set (n := Z.of_nat (length l)).
  replace ((Z.of_nat (S k) - 1) * 9) with (Z.of_nat (9 * k)) by lia.
  destruct (Z.of_nat (9 * k) <? 0) eqn:E1; [apply Z.ltb_lt in E1; lia|].
  destruct (Z.of_nat (9 * k) + 9 <? 0) eqn:E2; [apply Z.ltb_lt in E2; lia|].
  destruct (le_lt_dec (length l) (9 * k)) as [Hle|Hlt].
  - rewrite !drop_ge by (unfold n in *; lia). now rewrite !take_nil.
  - replace (Z.to_nat (Z.min (Z.of_nat (9 * k)) n)) with (9 * k)%nat
      by (unfold n; lia).
    destruct (le_lt_dec (length l) (9 * k + 9)) as [Hle2|Hlt2].
    + rewrite !take_ge; [reflexivity| |]; rewrite length_drop; unfold n; lia.
    + f_equal. unfold n. lia.
Qed.

Lemma total_pages_step (l : list row) :
  l <> [] -> total_pages l = total_pages (drop 9 l) + 1.
Proof.
  intros Hne. unfold total_pages, images_per_page. rewrite length_drop.
  assert (Hl : (1 <= length l)%nat) by (destruct l; [now elim Hne|simpl; lia]).
  destruct (le_lt_dec 9 (length l)) as [H9|H9].
  - replace (Z.of_nat (length l) + 9 - 1)
      with ((Z.of_nat (length l - 9) + 9 - 1) + 1 * 9) by lia.
    now rewrite Z.div_add by lia.
  - replace (length l - 9)%nat with 0%nat by lia.
    replace (Z.of_nat (length l) + 9 - 1)
      with ((Z.of_nat (length l) - 1) + 1 * 9) by lia.
    rewrite Z.div_add by lia. rewrite Z.div_small by lia. reflexivity.
Qed.

Lemma total_pages_nonneg (l : list row) : 0 <= total_pages l.
Proof. unfold total_pages, images_per_page. apply Z.div_pos; lia. Qed.

(** X22.  The pages of the gallery partition the rows shown: the pages 1
    to [total_pages], one after the other, are the filtered list, each row
    once and in order. *)
Theorem gallery_pages_cover (filtered : list row) :
  concat (map (fun k => paginated_prompts (Z.of_nat k) filtered)
              (seq 1 (Z.to_nat (total_pages filtered)))) = filtered.
Proof.
  assert (G : forall n (l : list row), (length l <= n)%nat ->
            concat (map (fun k => take 9 (drop (9 * k) l))
                        (seq 0 (Z.to_nat (total_pages l)))) = l).
  { induction n as [|n IH]; intros l Hn.
    - destruct l; [reflexivity|simpl in Hn; lia].
    - destruct (decide (l = [])) as [->|E]; [reflexivity|].
      rewrite (total_pages_step _ E).
      pose proof (total_pages_nonneg (drop 9 l)) as H0.
      replace (Z.to_nat (total_pages (drop 9 l) + 1))
        with (S (Z.to_nat (total_pages (drop 9 l)))) by lia.
      cbn [seq map concat]. rewrite Nat.mul_0_r, drop_0.
      rewrite <- seq_shift, map_map.
      rewrite <- (take_drop 9 l) at 3. f_equal.
      rewrite <- (IH (drop 9 l)) at 2.
      + f_equal. apply map_ext. intros k. rewrite drop_drop.
        f_equal. f_equal. lia.
      + rewrite length_drop. destruct l; [now elim E|simpl in *; lia]. }
  specialize (G (length filtered) filtered (le_n _)).
  etransitivity; [|exact G].
  rewrite <- seq_shift, map_map. f_equal. apply map_ext. intros k.
  apply slice_page.
Qed.

(** X23.  Every page the number input offers shows at most 9 rows, all of
    them rows of the filtered list, and at least one when the list is not
    empty. *)
Theorem gallery_page_selectable (page : Z) (filtered : list row) :
  selectable page filtered ->
  (length (paginated_prompts page filtered) <= 9)%nat /\
  (forall r, In r (paginated_prompts page filtered) -> In r filtered) /\
  (filtered <> [] -> paginated_prompts page filtered <> []).
Proof.
  intros [H1 Hmax].
  replace page with (Z.of_nat (S (Z.to_nat (page - 1)))) by lia.
  rewrite slice_page. set (k := Z.to_nat (page - 1)).
  split; [rewrite length_take; lia|]. split.
  - intros r Hr. apply list_elem_of_In. apply list_elem_of_In in Hr.
    apply (subseteq_drop (9 * k)), (subseteq_take 9). exact Hr.
  - intros Hne.
    assert (Hl : (1 <= length filtered)%nat)
      by (destruct filtered; [now elim Hne|simpl; lia]).
    assert (Ht : 9 * total_pages filtered <= Z.of_nat (length filtered) + 8).
    { unfold total_pages, images_per_page.
      replace (Z.of_nat (length filtered) + 9 - 1)
        with (Z.of_nat (length filtered) + 8) by lia.
      apply Z.mul_div_le. lia. }
    assert (Hk : (9 * k < length filtered)%nat) by (unfold k; lia).
    intros E. apply (f_equal length) in E.
    rewrite length_take, length_drop in E. cbn [length] in E. lia.
Qed.

(** X23 on an example: 10 rows, page 2. *)
Lemma gallery_page_selectable_witness :
  (length (paginated_prompts 2 (repeat (record (py "cartoon") None) 10)) <= 9)%nat.
Proof.
  apply (gallery_page_selectable 2 (repeat (record (py "cartoon") None) 10)).
  unfold selectable. vm_compute. split; discriminate.
Defined.

(** ** Paths: [normpath] on absolute paths *)

Lemma split_sep_nonempty sep s : split_sep sep s <> [].
Proof.
  induction s as [|c s IH]; simpl; [discriminate|].
  destruct (c =? sep)%N; [discriminate|].
  destruct (split_sep sep s); discriminate.
Qed.

Lemma split_sep_word sep w s :
  ~ In sep w -> split_sep sep (w ++ sep :: s) = w :: split_sep sep s.
Proof.
  induction w as [|c w IH]; intros Hw; simpl.
  - now rewrite N.eqb_refl.
  - destruct (c =? sep)%N eqn:E.
    + apply N.eqb_eq in E. elim Hw. now left.
    + rewrite IH; [reflexivity|]. intros Hin. apply Hw. now right.
Qed.

Lemma split_sep_last sep w : ~ In sep w -> split_sep sep w = [w].
Proof.
  induction w as [|c w IH]; intros Hw; simpl; [reflexivity|].
  destruct (c =? sep)%N eqn:E.
  - apply N.eqb_eq in E. elim Hw. now left.
  - rewrite IH; [reflexivity|]. intros Hin. apply Hw. now right.
Qed.

Lemma split_sep_join sep comps :
  comps <> [] -> Forall (fun c => ~ In sep c) comps ->
  split_sep sep (join [sep] comps) = comps.
Proof.
  intros Hne H. induction H as [|c comps Hc Hcs IH]; [now elim Hne|].
  destruct comps as [|d comps].
  - simpl. now apply split_sep_last.
  - rewrite join_cons. cbn [app]. rewrite split_sep_word by exact Hc.
    rewrite IH by discriminate. reflexivity.
Qed.

Lemma split_sep_parts sep s : Forall (fun c => ~ In sep c) (split_sep sep s).
Proof.
  induction s as [|c s IH]; simpl.
  - constructor; [intros []|constructor].
  - destruct (c =? sep)%N eqn:E.
    + constructor; [intros []|exact IH].
    + destruct (split_sep sep s) as [|w ws]; [repeat constructor|].
      * intros [->|[]]. now rewrite N.eqb_refl in E.
      * inversion IH as [|? ? Hw Hws]; subst. constructor; [|exact Hws].
        intros [->|Hin]; [now rewrite N.eqb_refl in E|now apply Hw].
Qed.

Lemma str_eqb_false a b : a <> b -> str_eqb a b = false.
Proof. intros Hne. unfold str_eqb. now apply bool_decide_eq_false_2. Qed.

Lemma str_eqb_refl a : str_eqb a a = true.
Proof. unfold str_eqb. now apply bool_decide_eq_true_2. Qed.

Lemma startswith_cons c s p ps :
  startswith (c :: s) (p :: ps) = (c =? p)%N && startswith s ps.
Proof. reflexivity. Qed.

Lemma startswith_nil s : startswith s [] = true.
Proof. now destruct s. Qed.

Lemma normpath_step_clean k acc c :
  clean c -> normpath_step k acc c = acc ++ [c].
Proof.
  intros (H0 & H1 & H2 & _). unfold normpath_step.
  now rewrite !str_eqb_false by assumption.
Qed.

Lemma normpath_step_empty k acc : normpath_step k acc [] = acc.
Proof. reflexivity. Qed.

Lemma Forall_removelast {A} (P : A -> Prop) l : Forall P l -> Forall P (removelast l).
Proof.
  induction 1 as [|a l Ha Hl IH]; [constructor|].
  simpl. destruct l; [constructor|]. constructor; assumption.
Qed.

Lemma last_in {A} (l : list A) d : l <> [] -> In (List.last l d) l.
Proof.
  induction l as [|a l IH]; intros Hne; [now elim Hne|].
  destruct l as [|b l]; [now left|]. right. apply IH. discriminate.
Qed.

(** With a leading slash, the components kept are clean. *)
Lemma normpath_step_keeps k acc c :
  (1 <= k)%nat -> Forall clean acc -> ~ In SLASH c ->
  Forall clean (normpath_step k acc c).
Proof.
  intros Hk Hacc Hc. unfold normpath_step.
  destruct (str_eqb c []) eqn:E0; [exact Hacc|].
  destruct (str_eqb c (py ".")) eqn:E1; [exact Hacc|]. cbn [orb].
  unfold str_eqb in E0, E1. apply bool_decide_eq_false in E0, E1.
  destruct (str_eqb c (py "..")) eqn:E2; cbn [negb orb].
  - replace (Nat.eqb k 0) with false by (symmetry; apply Nat.eqb_neq; lia).
    cbn [andb orb].
    destruct (decide (acc <> [])) as [Hne|He].
    + rewrite (bool_decide_eq_true_2 _ Hne). cbn [andb].
      assert (Hl : str_eqb (List.last acc []) (py "..") = false).
      { apply str_eqb_false. intros El.
        pose proof (last_in acc [] Hne) as Hin.
        rewrite Forall_forall in Hacc.
        apply list_elem_of_In, Hacc in Hin. destruct Hin as (_ & _ & H2 & _).
        now apply H2. }
      rewrite Hl. now apply Forall_removelast.
    + rewrite (bool_decide_eq_false_2 _ He). exact Hacc.
  - unfold str_eqb in E2. apply bool_decide_eq_false in E2.
    apply Forall_app. split; [exact Hacc|].
    constructor; [|constructor]. repeat split; assumption.
Qed.

Lemma normpath_fold_keeps k comps : forall acc,
  (1 <= k)%nat -> Forall clean acc -> Forall (fun c => ~ In SLASH c) comps ->
  Forall clean (fold_left (normpath_step k) comps acc).
Proof.
  induction comps as [|c comps IH]; intros acc Hk Hacc Hc; [exact Hacc|].
  inversion Hc; subst. cbn [fold_left]. apply IH; try assumption.
  now apply normpath_step_keeps.
Qed.

Lemma normpath_fold_clean k comps : forall acc,
  Forall clean comps -> fold_left (normpath_step k) comps acc = acc ++ comps.
Proof.
  induction comps as [|c comps IH]; intros acc Hc; [now rewrite app_nil_r|].
  inversion Hc; subst. cbn [fold_left].
  rewrite normpath_step_clean, IH, <- app_assoc by assumption. reflexivity.
Qed.

Lemma initial_slashes_abs path :
  startswith path [SLASH] = true ->
  initial_slashes_of path = 1%nat \/ initial_slashes_of path = 2%nat.
Proof.
  intros E. unfold initial_slashes_of. rewrite E.
  destruct (_ && _); [now right|now left].
Qed.

(** [normpath] on a path that starts with a slash. *)
Lemma normpath_abs path :
  startswith path [SLASH] = true ->
  normpath path =
    repeat SLASH (initial_slashes_of path)
      ++ join [SLASH] (fold_left (normpath_step (initial_slashes_of path))
                                 (split_sep SLASH path) []).
Proof.
  intros E. pose proof (initial_slashes_abs path E) as Hk.
  unfold normpath. fold (initial_slashes_of path).
  destruct path as [|c path]; [discriminate|]. cbn [truthy negb].
  destruct Hk as [-> | ->]; reflexivity.
Qed.

Lemma join_head comps :
  Forall clean comps ->
  join [SLASH] comps = [] \/
  exists c t, join [SLASH] comps = c :: t /\ c <> SLASH.
Proof.
  intros H. destruct H as [|w ws (Hne & _ & _ & Hs) _]; [now left|].
  right. destruct w as [|c w]; [now elim Hne|].
  exists c. destruct ws; simpl; eexists; (split; [reflexivity|]);
    intros ->; apply Hs; now left.
Qed.

Lemma clean_no_slash comps :
  Forall clean comps -> Forall (fun c => ~ In SLASH c) comps.
Proof.
  intros H. eapply Forall_impl; [exact H|]. intros c (_ & _ & _ & Hc). exact Hc.
Qed.

(** A normalized absolute path is a fixed point of [normpath]. *)
Lemma normpath_fixed k comps :
  k = 1%nat \/ k = 2%nat -> Forall clean comps ->
  normpath (repeat SLASH k ++ join [SLASH] comps) = repeat SLASH k ++ join [SLASH] comps.
Proof.
  intros Hk Hc.
  assert (Hsplit : fold_left (normpath_step k)
                     (split_sep SLASH (join [SLASH] comps)) [] = comps).
  { destruct comps as [|c comps]; [reflexivity|].
    rewrite split_sep_join; [|discriminate|now apply clean_no_slash].
    now rewrite normpath_fold_clean. }
  assert (Hne : forall c, c <> SLASH -> (c =? SLASH)%N = false)
    by (intros c Hcne; now apply N.eqb_neq).
  rewrite normpath_abs
    by (destruct Hk as [-> | ->]; cbn [repeat app];
        now rewrite startswith_cons, N.eqb_refl, startswith_nil).
  assert (Ek : initial_slashes_of (repeat SLASH k ++ join [SLASH] comps) = k).
  { unfold initial_slashes_of.
    destruct (join_head comps Hc) as [-> |(c & t & -> & Hcne)];
      destruct Hk as [-> | ->]; try reflexivity; cbn [repeat app];
      rewrite !startswith_cons, ?startswith_nil, ?N.eqb_refl, ?(Hne c Hcne);
      reflexivity. }
  rewrite Ek. f_equal. f_equal.
  destruct Hk as [-> | ->]; cbn [repeat app split_sep];
    rewrite ?N.eqb_refl; cbn [fold_left]; rewrite ?normpath_step_empty;
    exact Hsplit.
Qed.

(** [abspath] in an absolute working directory gives a normalized absolute
    path. *)
Lemma abspath_normal cwd path :
  isabs cwd = true ->
  exists k comps, (k = 1%nat \/ k = 2%nat) /\ Forall clean comps /\
    abspath cwd path = repeat SLASH k ++ join [SLASH] comps.
Proof.
  intros Hcwd. unfold abspath.
  set (P := if isabs path then path else path_join cwd path).
  assert (HP : startswith P [SLASH] = true).
  { unfold P. destruct (isabs path) eqn:E; [exact E|].
    unfold path_join. unfold isabs in E. rewrite E.
    destruct cwd as [|c cwd]; [discriminate|].
    unfold isabs in Hcwd. rewrite startswith_cons, startswith_nil in Hcwd.
    destruct (_ || _); cbn [app]; now rewrite startswith_cons, startswith_nil. }
  rewrite (normpath_abs P HP).
  exists (initial_slashes_of P), (fold_left (normpath_step (initial_slashes_of P))
                                    (split_sep SLASH P) []).
  pose proof (initial_slashes_abs P HP) as Hk.
  split; [exact Hk|]. split; [|reflexivity].
  apply normpath_fold_keeps; [destruct Hk as [-> | ->]; lia|constructor|].
  apply split_sep_parts.
Qed.

(** Resolving a resolved path again changes nothing. *)
Lemma abspath_idem cwd path :
  isabs cwd = true -> abspath cwd (abspath cwd path) = abspath cwd path.
Proof.
  intros Hcwd.
  destruct (abspath_normal cwd path Hcwd) as (k & comps & Hk & Hc & ->).
  unfold abspath.
  assert (Ha : isabs (repeat SLASH k ++ join [SLASH] comps) = true)
    by (unfold isabs; destruct Hk as [-> | ->]; cbn [repeat app];
        now rewrite startswith_cons, N.eqb_refl, startswith_nil).
  rewrite Ha. now apply normpath_fixed.
Qed.

(** ** Reading a blob: every outcome *)

Section Read.
Context `{Platform}.

(** [get_image_base64] in an absolute working directory, by the state of
    the resolved path. *)
Lemma get_image_base64_cases image_path w :
  isabs (cwd w) = true ->
  let base := abspath (cwd w) (py "generated_images") in
  let full := abspath (cwd w) image_path in
  get_image_base64 image_path w =
    if negb (startswith full base) then Ok None w
    else match fs w !! full with
         | None => Ok None w
         | Some Dir => Raise IsADirectoryError w
         | Some (File data) =>
             Ok (Some (b64encode data)) (set_trace (trace w ++ [EvRead full]) w)
         end.
Proof.
  intros Hcwd base full.
  unfold get_image_base64, bind, os_path_abspath. fold base. fold full.
  destruct (negb (startswith full base)); [reflexivity|].
  assert (Hidem : abspath (cwd w) full = full) by now apply abspath_idem.
  unfold os_path_exists, read_file, ret. rewrite Hidem.
  destruct (fs w !! full) as [[data|]|] eqn:Ef.
  - rewrite exists_some. cbn [negb]. cbv beta. now rewrite Hidem, Ef.
  - rewrite exists_some. cbn [negb]. cbv beta. now rewrite Hidem, Ef.
  - now rewrite exists_none.
Qed.

(** X24.  What [get_image_base64] can do, in an absolute working
    directory.  It returns text only for an existing file whose resolved
    path has the resolved blob root as a prefix, and then the text is the
    encoding of that file's bytes and the file is read once; it returns
    [None] without reading anything; and the only exception it raises is
    IsADirectoryError, for a directory that passes the prefix test. *)
Theorem get_image_base64_outcomes (image_path : pystr) (w : world) :
  isabs (cwd w) = true ->
  let base := abspath (cwd w) (py "generated_images") in
  let full := abspath (cwd w) image_path in
  (forall b w', get_image_base64 image_path w = Ok (Some b) w' ->
     exists data,
       startswith full base = true /\ fs w !! full = Some (File data) /\
       b = b64encode data /\ w' = set_trace (trace w ++ [EvRead full]) w) /\
  (forall w', get_image_base64 image_path w = Ok None w' ->
     w' = w /\ (startswith full base = false \/ fs w !! full = None)) /\
  (forall e w', get_image_base64 image_path w = Raise e w' ->
     e = IsADirectoryError /\ w' = w /\
     startswith full base = true /\ fs w !! full = Some Dir).
Proof.
  intros Hcwd base full.
  rewrite (get_image_base64_cases image_path w Hcwd). fold base. fold full.
  destruct (startswith full base) eqn:Ep; cbn [negb].
  - destruct (fs w !! full) as [[data|]|] eqn:Ef.
    + split; [|split]; [|discriminate|discriminate].
      intros b w' [= <- <-]. exists data. repeat split.
    + split; [|split]; [discriminate|discriminate|].
      intros e w' [= <- <-]. repeat split.
    + split; [|split]; [discriminate| |discriminate].
      intros w' [= <-]. split; [reflexivity|now right].
  - split; [|split]; [discriminate| |discriminate].
    intros w' [= <-]. split; [reflexivity|now left].
Qed.

(** X25.  Asked for the blob root itself, [get_image_base64] does not
    return [None]: the root exists and passes the prefix test, and opening
    it raises IsADirectoryError. *)
Theorem get_image_base64_root (w : world) :
  isabs (cwd w) = true ->
  fs w !! abspath (cwd w) (py "generated_images") = Some Dir ->
  get_image_base64 (py "generated_images") w = Raise IsADirectoryError w.
Proof.
  intros Hcwd Hdir. rewrite (get_image_base64_cases _ w Hcwd).
  assert (Hp : startswith (abspath (cwd w) (py "generated_images"))
                          (abspath (cwd w) (py "generated_images")) = true).
  { apply startswith_spec. exists []. now rewrite app_nil_r. }
  now rewrite Hp, Hdir.
Qed.

End Read.

(** X24 on an example: the saved blob is read. *)
Lemma get_image_base64_outcomes_witness :
  exists data,
    fs saved_world !! abspath (cwd saved_world) saved_file = Some (File data) /\
    @get_image_base64 test_platform saved_file saved_world
      = Ok (Some (@b64encode test_platform data))
           (set_trace (trace saved_world
                         ++ [EvRead (abspath (cwd saved_world) saved_file)])
              saved_world).
Proof.
  destruct (@get_image_base64_outcomes test_platform saved_file saved_world eq_refl)
    as (Hsome & _ & _).
  destruct (Hsome (@b64encode test_platform [x89; x50])
              (set_trace (trace saved_world
                            ++ [EvRead (abspath (cwd saved_world) saved_file)])
                 saved_world))
    as (data & _ & Hf & Hb & _).
  - vm_compute. reflexivity.
  - exists data. split; [exact Hf|]. rewrite <- Hb. vm_compute. reflexivity.
Defined.

(** X25 on an example. *)
Lemma get_image_base64_root_witness :
  @get_image_base64 test_platform (py "generated_images") test_world
    = Raise IsADirectoryError test_world.
Proof.
  apply (@get_image_base64_root test_platform test_world); reflexivity.
Defined.

(** ** Paths below a normalized working directory *)

Lemma join_app sep cs rs :
  cs <> [] -> rs <> [] ->
  join sep (cs ++ rs) = join sep cs ++ sep ++ join sep rs.
Proof.
  intros Hc Hr. induction cs as [|c cs IH]; [now elim Hc|].
  destruct cs as [|d cs].
  - destruct rs; [now elim Hr|]. reflexivity.
  - change ((c :: d :: cs) ++ rs) with (c :: (d :: cs) ++ rs).
    cbn [app]. rewrite !join_cons. cbn [app] in IH.
    rewrite IH by discriminate. now rewrite <- !app_assoc.
Qed.

Lemma join_slash_last cs :
  cs <> [] -> Forall clean cs ->
  exists t c, join [SLASH] cs = t ++ [c] /\ c <> SLASH.
Proof.
  intros Hne H. induction H as [|w ws (Hw & _ & _ & Hs) Hws IH]; [now elim Hne|].
  destruct ws as [|v ws].
  - destruct (exists_last Hw) as (t & c & ->). exists t, c.
    split; [reflexivity|]. intros ->. apply Hs, in_app_iff. right. now left.
  - destruct IH as (t & c & E & Hc); [discriminate|].
    exists (w ++ [SLASH] ++ t), c. split; [|exact Hc].
    rewrite join_cons, E, <- !app_assoc. reflexivity.
Qed.

(** A relative path of clean components resolves below the working
    directory. *)
Lemma abspath_rel cs rs :
  Forall clean cs -> rs <> [] -> Forall clean rs ->
  abspath (path_of cs) (join [SLASH] rs) = path_of (cs ++ rs).
Proof.
  intros Hcs Hne Hrs.
  assert (Hall : Forall clean (cs ++ rs)) by now apply Forall_app.
  destruct (join_head rs Hrs) as [E|(c & t & E & Hc)].
  { destruct rs as [|r rs]; [now elim Hne|].
    inversion Hrs as [|? ? (Hr & _) _]; subst.
    destruct rs; simpl in E; [now subst r|]. destruct r; discriminate. }
  assert (Hrel : isabs (join [SLASH] rs) = false).
  { unfold isabs. rewrite E, startswith_cons. apply N.eqb_neq in Hc. now rewrite Hc. }
  unfold abspath. rewrite Hrel. unfold path_join. unfold isabs in Hrel.
  rewrite Hrel. cbn [path_of truthy negb orb].
  destruct cs as [|c0 cs].
  - cbn [join]. change (endswith [SLASH] [SLASH]) with true. cbv iota.
    cbn [app]. apply (normpath_fixed 1 rs); [now left|exact Hrs].
  - destruct (join_slash_last (c0 :: cs) ltac:(discriminate) Hcs) as (t' & c' & E' & Hc').
    assert (Hend : endswith (SLASH :: join [SLASH] (c0 :: cs)) [SLASH] = false).
    { unfold endswith. rewrite E'. cbn [rev]. rewrite rev_app_distr. cbn [rev app].
      rewrite startswith_cons. apply N.eqb_neq in Hc'. now rewrite Hc'. }
    unfold path_of. rewrite Hend.
    assert (EP : (SLASH :: join [SLASH] (c0 :: cs)) ++ [SLASH] ++ join [SLASH] rs
                 = repeat SLASH 1 ++ join [SLASH] ((c0 :: cs) ++ rs)).
    { rewrite join_app by (discriminate || exact Hne). reflexivity. }
    rewrite EP.
    apply (normpath_fixed 1 ((c0 :: cs) ++ rs)); [now left|exact Hall].
Qed.

Lemma dirname_path_of cs n :
  Forall clean cs -> clean n -> dirname (path_of (cs ++ [n])) = path_of cs.
Proof.
  intros Hcs Hn. unfold dirname.
  assert (E : path_of (cs ++ [n]) = join [SLASH] ([] :: cs ++ [n])).
  { unfold path_of. destruct (cs ++ [n]) eqn:El; [now destruct cs|]. reflexivity. }
  rewrite E, split_sep_join; [|discriminate|].
  - change ([] :: cs ++ [n]) with (([] :: cs) ++ [n]). rewrite removelast_last.
    unfold path_of. destruct cs as [|c cs]; [reflexivity|].
    rewrite join_cons. reflexivity.
  - constructor; [intros []|]. apply clean_no_slash. apply Forall_app.
    split; [exact Hcs|]. now constructor.
Qed.

Lemma image_name_clean ts :
  ~ In SLASH ts -> clean (py "image_" ++ ts ++ py ".png").
Proof.
  intros Hts. repeat split; try discriminate.
  rewrite !in_app_iff. intros [Hi|[Hi|Hi]]; [|now apply Hts|].
  - vm_compute in Hi. intuition discriminate.
  - vm_compute in Hi. intuition discriminate.
Qed.

Lemma blob_root_clean : clean (py "generated_images").
Proof.
  repeat split; try discriminate. intros Hi. vm_compute in Hi. intuition discriminate.
Qed.

Section RoundTrip.
Context `{Platform}.

(** X26.  What [save_image] stores, the gallery can read.  In a normalized
    working directory in which the blob root exists, with a timestamp
    without a slash, an image that fits is saved, and [get_image_base64] of
    the name returned finds the file inside the root and returns the
    encoding of exactly the bytes written. *)
Theorem save_then_read_back (img : image) (text style : pystr)
    (comps : list pystr) (w : world) :
  let name := py "image_" ++ strftime (clock w) ++ py ".png" in
  let full := path_of (comps ++ [py "generated_images"; name]) in
  cwd w = path_of comps -> Forall clean comps ->
  ~ In SLASH (strftime (clock w)) ->
  fst (size img) <= 4096 -> snd (size img) <= 4096 ->
  fs w !! path_of (comps ++ [py "generated_images"]) = Some Dir ->
  fs w !! full <> Some Dir ->
  exists file i w1,
    save_image img text style w = Ok (Some file, Some i) w1 /\
    get_image_base64 file w1
      = Ok (Some (b64encode (png_encode img)))
           (set_trace (trace w1 ++ [EvRead full]) w1).
Proof.
  intros name full Hcwd Hcs Hts Hw Hh Hroot Hfull.
  pose proof (image_name_clean _ Hts) as Hname. fold name in Hname.
  pose proof blob_root_clean as Hg.
  set (file := py "generated_images/image_" ++ strftime (clock w) ++ py ".png").
  assert (Efile : file = join [SLASH] [py "generated_images"; name]).
  { unfold file, name. rewrite join_cons. cbn [join].
    change (py "generated_images/image_")
      with (py "generated_images" ++ [SLASH] ++ py "image_").
    now rewrite <- !app_assoc. }
  assert (Hp : abspath (cwd w) file = full).
  { rewrite Hcwd, Efile. apply abspath_rel; [exact Hcs|discriminate|].
    constructor; [exact Hg|]. constructor; [exact Hname|constructor]. }
  assert (Hb : abspath (cwd w) (py "generated_images")
               = path_of (comps ++ [py "generated_images"])).
  { rewrite Hcwd. apply (abspath_rel comps [py "generated_images"]);
      [exact Hcs|discriminate|]. constructor; [exact Hg|constructor]. }
  assert (Hdir : dirname full = path_of (comps ++ [py "generated_images"])).
  { unfold full.
    change (comps ++ [py "generated_images"; name])
      with (comps ++ [py "generated_images"] ++ [name]).
    rewrite app_assoc. apply dirname_path_of; [|exact Hname].
    apply Forall_app. split; [exact Hcs|]. constructor; [exact Hg|constructor]. }
  destruct (save_image_ok img text style w Hw Hh) as (w1 & Hs).
  { fold file. rewrite Hp, Hdir. exact Hroot. }
  { fold file. rewrite Hp. exact Hfull. }
  fold file in Hs.
  exists file, (Z.max (sqlite_sequence (db w)) (max_rowid (prompts (db w))) + 1), w1.
  split; [exact Hs|].
  apply save_image_ok_inv in Hs
    as [(D & _)|(_ & _ & _ & _ & Efs & _ & Ecwd & _)]; [discriminate|].
  fold file in Efs. rewrite Hp in Efs.
  assert (Habs : isabs (cwd w1) = true).
  { rewrite Ecwd, Hcwd. unfold isabs, path_of.
    now rewrite startswith_cons, N.eqb_refl, startswith_nil. }
  rewrite (get_image_base64_cases file w1 Habs). rewrite Ecwd, Hp, Hb.
  assert (Hpre : startswith full (path_of (comps ++ [py "generated_images"])) = true).
  { apply startswith_spec. exists ([SLASH] ++ name). unfold full.
    change (comps ++ [py "generated_images"; name])
      with (comps ++ [py "generated_images"] ++ [name]).
    rewrite app_assoc. unfold path_of.
    rewrite join_app by (discriminate || now destruct comps). reflexivity. }
  rewrite Hpre. cbn [negb]. rewrite Efs, lookup_insert_eq. reflexivity.
Qed.

End RoundTrip.

(** X26 on an example: the test world, whose working directory is /app. *)
Lemma save_then_read_back_witness :
  exists file i w1,
    @save_image test_platform placeholder (py "a red fox") (py "cartoon") test_world
      = Ok (Some file, Some i) w1 /\
    @get_image_base64 test_platform file w1
      = Ok (Some (@b64encode test_platform (@png_encode test_platform placeholder)))
           (set_trace (trace w1
              ++ [EvRead (path_of [py "app"; py "generated_images";
                                    py "image_20240101_120000.png"])]) w1).
Proof.
  apply (@save_then_read_back test_platform placeholder (py "a red fox")
           (py "cartoon") [py "app"] test_world).
  - reflexivity.
  - constructor; [|constructor]. repeat split; try discriminate.
    intros Hi. vm_compute in Hi. intuition discriminate.
  - intros Hi. vm_compute in Hi. intuition discriminate.
  - simpl. lia.
  - simpl. lia.
  - vm_compute. reflexivity.
  - vm_compute. discriminate.
Defined.
